(** * Crop-type assets: the export and update utilities

    A shallow embedding of [fields/update_field_crop_type_by_state.py]
    (the Result Merger) and [fields/export_field_crop_type_by_state.py]
    (Coverage Table, Remap Table, Source Selector, Remote Job Submitter),
    followed by the properties of the merge and selection policies.

    Conventions.  Python values are the inductive [PyVal]; a raised
    exception is the left injection of [res]; a Python [dict] is a [gmap];
    a list that is iterated in order is a [list].  Code that touches the
    file system, the bucket or the shapefile threads a [World]. *)

From stdpp Require Import base option list list_numbers strings gmap pretty sorting.
From Stdlib Require Import Ascii ZArith QArith Lia.

Local Open Scope string_scope.
Local Open Scope Z_scope.

(** ** Python values and exceptions *)

(** The values that reach the scripts: cells of a CSV as pandas hands them
    over ([int], [float], [str]) and field values as OGR hands them over
    ([int], [str], [None]).  A finite [float] is modelled by the rational
    it denotes; [PNaN] is the float pandas uses for an empty cell. *)
Inductive PyVal : Type :=
  | PInt (z : Z)
  | PFloat (q : Q)
  | PNaN
  | PStr (s : string)
  | PNone.

Inductive exn : Type :=
  | KeyError
  | TypeError
  | ValueError
  | ZeroDivisionError
  | AttributeError
  | RuntimeError
  | Exception (msg : string).

(** A computation that may raise. *)
Definition res : Type → Type := sum exn.

Definition raise {A} (e : exn) : res A := inl e.

#[global] Instance res_ret : MRet res := λ A a, inr a.
#[global] Instance res_bind : MBind res := λ A B k m,
  match m with inl e => inl e | inr a => k a end.
#[global] Instance res_fmap : FMap res := λ A B f m,
  match m with inl e => inl e | inr a => inr (f a) end.

(** [try: e  except: d] with a bare [except]. *)
Definition try_except {A} (m : res A) (d : A) : A :=
  match m with inl _ => d | inr a => a end.

(** *** [int(...)] *)

Definition is_space (c : ascii) : bool :=
  let n := nat_of_ascii c in
  (Nat.eqb n 32 || (Nat.leb 9 n && Nat.leb n 13))%bool.

Definition digit_of (c : ascii) : option Z :=
  let n := nat_of_ascii c in
  if (Nat.leb 48 n && Nat.leb n 57)%bool then Some (Z.of_nat n - 48) else None.

Fixpoint lstrip (s : string) : string :=
  match s with
  | String c r => if is_space c then lstrip r else s
  | EmptyString => EmptyString
  end.

Definition strip (s : string) : string :=
  String.rev (lstrip (String.rev (lstrip s))).

(** Digits with single underscores between them, as [int] accepts. *)
Fixpoint parse_digits (acc : Z) (need_digit : bool) (s : string) : option Z :=
  match s with
  | EmptyString => if need_digit then None else Some acc
  | String c r =>
      match digit_of c with
      | Some d => parse_digits (10 * acc + d) false r
      | None =>
          if Ascii.eqb c "_"%char then
            if need_digit then None else parse_digits acc true r
          else None
      end
  end.

Definition parse_int (s : string) : option Z :=
  match strip s with
  | String "-"%char r => Z.opp <$> parse_digits 0 true r
  | String "+"%char r => parse_digits 0 true r
  | r => parse_digits 0 true r
  end.

(** [int(v)]: truncation toward zero on floats, [ValueError] on NaN and
    on a string that is not a decimal integer, [TypeError] on [None]. *)
Definition py_int (v : PyVal) : res Z :=
  match v with
  | PInt z => mret z
  | PFloat q => mret (Z.quot (Qnum q) (Z.pos (Qden q)))
  | PNaN => raise ValueError
  | PStr s => match parse_int s with Some z => mret z | None => raise ValueError end
  | PNone => raise TypeError
  end.

(** *** Comparisons and division *)

(** [v > 0]. *)
Definition py_gt0 (v : PyVal) : res bool :=
  match v with
  | PInt z => mret (0 <? z)
  | PFloat q => mret (0 <? Qnum q)
  | PNaN => mret false
  | PStr _ | PNone => raise TypeError
  end.

(** [v == 0] (never raises). *)
Definition py_eq0 (v : PyVal) : bool :=
  match v with
  | PInt z => z =? 0
  | PFloat q => Qnum q =? 0
  | _ => false
  end.

(** [v is None]. *)
Definition py_is_None (v : PyVal) : bool :=
  match v with PNone => true | _ => false end.

(** A number as an (extended) rational: [Some None] is NaN. *)
Definition py_number (v : PyVal) : res (option Q) :=
  match v with
  | PInt z => mret (Some (inject_Z z))
  | PFloat q => mret (Some q)
  | PNaN => mret None
  | PStr _ | PNone => raise TypeError
  end.

(** [a / b] is only evaluated by the scripts behind the guard [b > 0]; the
    quotient of two numbers, NaN when either is NaN. *)
Definition py_truediv (a b : PyVal) : res (option Q) :=
  x ← py_number a;
  y ← py_number b;
  match x, y with
  | Some p, Some q =>
      if Qnum q =? 0 then raise ZeroDivisionError else mret (Some (p / q)%Q)
  | _, _ => mret None
  end.

(** [r >= 0.50]; a comparison with NaN is [False]. *)
Definition py_ge_half (r : option Q) : bool :=
  match r with
  | Some q => Qle_bool (1 # 2) q
  | None => false
  end.

(** ** The vector dataset *)

(** One OGR feature: its attribute table row, field name to value
    (geometry plays no role here).  A feature of a layer has a value for
    every field of the layer's schema; a name outside the schema is absent
    from the map. *)
Abbreviation Feature := (gmap string PyVal).
Abbreviation Layer := (list Feature).

(** One row of a result table, column name to cell, and a result table as
    [to_dict('index')] returns it: [OPENET_ID] to row. *)
Abbreviation Rec := (gmap string PyVal).
Abbreviation Stats := (gmap string (gmap string PyVal)).

(** [ftr.GetField(name)]: [KeyError] on a name that is not a field. *)
Definition GetField (ftr : Feature) (name : string) : res PyVal :=
  match ftr !! name with
  | Some v => mret v
  | None => raise KeyError
  end.

(** [ftr.SetField(name, v)] on the in-memory feature: [KeyError] on a name
    that is not a field.  The coercion OGR applies to [v] for the column
    type is a function of [v] alone and is left out. *)
Definition SetField (ftr : Feature) (name : string) (v : PyVal) : res Feature :=
  match ftr !! name with
  | Some _ => mret (<[name := v]> ftr)
  | None => raise KeyError
  end.

(** [values[key]] on a row. *)
Definition getitem (values : Rec) (key : string) : res PyVal :=
  match values !! key with
  | Some v => mret v
  | None => raise KeyError
  end.

(** [features[output_id]]: the table is indexed by the [OPENET_ID] strings,
    so only a string identifier can be a key of it. *)
Definition features_lookup (features : Stats) (output_id : PyVal) : option Rec :=
  match output_id with
  | PStr s => features !! s
  | _ => None
  end.

Definition crop_type_field (year : Z) : string := "CROP_" +:+ pretty year.
Definition crop_src_field (year : Z) : string := "CSRC_" +:+ pretty year.

(** [for ftr in layer: ...; layer.SetFeature(ftr)].  The body works on
    the in-memory feature: [None] is [continue] (nothing is written back),
    [Some ftr'] is written back with [SetFeature].  The result is the layer
    as the loop leaves it and the exception that ended it early, if any:
    the feature whose body raised, and the ones after it, are as before. *)
Fixpoint update_layer (body : Feature → res (option Feature)) (layer : Layer)
    : Layer * option exn :=
  match layer with
  | [] => ([], None)
  | ftr :: rest =>
      match body ftr with
      | inl e => (ftr :: rest, Some e)
      | inr out =>
          let '(rest', e) := update_layer body rest in
          (default ftr out :: rest', e)
      end
  end.

(** ** Settings shared by the two scripts *)

Definition year_min : Z := 1997.
Definition year_max : Z := 2024.

(** Years where CDL has full CONUS coverage. *)
Definition cdl_year_min : Z := 2008.
Definition cdl_year_max : Z := 2024.

Definition bucket_folder : string := "temp_croptype_20250414".

(** The expansion of [ALL]; ['AL'] is not included. *)
Definition all_states : list string :=
  [ "AZ"; "AR"; "CA"; "CO"; "CT"; "DE"; "FL"; "GA"; "ID"; "IL"; "IN"; "IA";
    "KS"; "KY"; "LA"; "ME"; "MD"; "MA"; "MI"; "MN"; "MS"; "MO"; "MT";
    "NC"; "ND"; "NE"; "NH"; "NJ"; "NM"; "NV"; "NY"; "OH"; "OK"; "OR"; "PA";
    "RI"; "SC"; "SD"; "TN"; "TX"; "UT"; "VA"; "VT"; "WA"; "WI"; "WV"; "WY" ].

(** *** Strings: [lower], [split(',')], [endswith] *)

Definition lower_ascii (c : ascii) : ascii :=
  let n := nat_of_ascii c in
  if (Nat.leb 65 n && Nat.leb n 90)%bool then ascii_of_nat (n + 32) else c.

Fixpoint lower (s : string) : string :=
  match s with
  | EmptyString => EmptyString
  | String c r => String (lower_ascii c) (lower r)
  end.

Fixpoint split_comma (s : string) : list string :=
  match s with
  | EmptyString => [EmptyString]
  | String c r =>
      if Ascii.eqb c ","%char then EmptyString :: split_comma r
      else match split_comma r with
           | tok :: toks => String c tok :: toks
           | [] => [String c EmptyString]
           end
  end.

(** [s.endswith(suffix)]. *)
Definition endswith (s suffix : string) : bool :=
  String.prefix (String.rev suffix) (String.rev s).

(** *** State/Year Enumerator (lines 64-85 of the export script, 65-85 of
    the update script) *)

(** [states] is the value of [--states]. *)
Definition enumerate_states (states : list string) : list string :=
  if bool_decide (states = ["ALL"]) then all_states
  else
    merge_sort String.le
      (remove_dups (filter (λ y, y ≠ "") (strip <$> (states ≫= split_comma)))).

Definition in_year_range (year : Z) : bool :=
  ((year <=? year_max) && (year_min <=? year))%bool.

(** [range(year_min, year_max+1)]. *)
Definition year_range : list Z := seqZ year_min (year_max + 1 - year_min).

(** [years] is the value of [--years], each string already expanded by
    [utils.str_ranges_2_list] (a function of [openet.core], outside the
    repository) to the integers it denotes.  The set comprehension over
    them, in some order. *)
Definition years_in_range (years : list (list Z)) : list Z :=
  remove_dups (filter (λ year, in_year_range year = true) (concat years)).

(** ** Coverage Table (lines 87-117 of both scripts) *)

(** [cdl_year_states]: year to the states the CDL image of that year
    covers. *)
Definition cdl_year_states (states : list string) : gmap Z (list string) :=
  let t0 : gmap Z (list string) :=
    list_to_map ((λ year, (year, states)) <$> seqZ cdl_year_min (cdl_year_max + 1 - cdl_year_min)) in
  let t1 := <[2007 := ["AR"; "IA"; "ID"; "IL"; "IN"; "KS"; "LA"; "MI";
                        "MN"; "MO"; "MS"; "MT"; "ND"; "NE"; "OH"; "OK"; "OR";
                        "SD"; "WA"; "WI"]]> t0 in
  let t2 := <[2006 := ["AR"; "IA"; "IL"; "IN"; "KS"; "LA"; "MN"; "MO";
                        "MS"; "ND"; "NE"; "OH"; "OK"; "SD"; "WI"]]> t1 in
  let t3 := <[2005 := ["AR"; "IA"; "IL"; "IN"; "MO"; "MS"; "ND"; "NE"; "WI"]]> t2 in
  let t4 := <[2004 := ["AR"; "FL"; "IA"; "IL"; "IN"; "MO"; "MS"; "ND"; "NE"; "WI"]]> t3 in
  let t5 := <[2003 := ["AR"; "IA"; "IL"; "IN"; "MO"; "MS"; "ND"; "NE"; "WI"]]> t4 in
  let t6 := <[2002 := ["AR"; "IA"; "IL"; "IN"; "MO"; "MS"; "ND"; "NE";
                        "NC"; "VA"; "WV"; "MD"; "DE"; "PA"; "NJ"; "NY"; "CT"; "RI"]]> t5 in
  let t7 := <[2001 := ["AR"; "IA"; "IL"; "IN"; "MO"; "MS"; "ND"; "NE"]]> t6 in
  let t8 := <[2000 := ["AR"; "IA"; "IL"; "IN"; "MS"; "ND"]]> t7 in
  let t9 := <[1999 := ["AR"; "IL"; "MS"; "ND"]]> t8 in
  let t10 := <[1998 := ["ND"]]> t9 in
  <[1997 := ["ND"]]> t10.

(** "Is (state, year) covered?": the test the scripts make on the table,
    [year in cdl_year_states.keys()] and then membership in the list. *)
Definition covered (states : list string) (state : string) (year : Z) : bool :=
  match cdl_year_states states !! year with
  | Some sts => bool_decide (state ∈ sts)
  | None => false
  end.

(** [cdl_state_years]: the years available for each configured state,
    in the order of [years].  [append] on a state that is not a key is the
    [KeyError] the script passes over. *)
Definition add_year (year : Z) (table : gmap string (list Z)) (state : string)
    : gmap string (list Z) :=
  alter (λ l : list Z, (l ++ [year])%list) state table.

Definition cdl_state_years (states : list string) (years : list Z)
    : gmap string (list Z) :=
  foldl
    (λ table year,
       match cdl_year_states states !! year with
       | None => table
       | Some sts => foldl (add_year year) table sts
       end)
    (list_to_map ((λ state, (state, [])) <$> states))
    years.

(** ** Result Merger: [write_features] *)

Module UpdateScript.

(** [new_crop_type] and [new_crop_src] of one row (lines 384-391). *)
Definition new_crop_type (values : Rec) (year : Z) : Z :=
  try_except (v ← getitem values (crop_type_field year); py_int v) 0.

Definition new_crop_src (values : Rec) (year : Z) : PyVal :=
  try_except (getitem values (crop_src_field year)) (PStr "").

(** The body of the loop of [write_features] for one feature.  [None] is
    [continue]: the feature is not written back.  [Some ftr'] is the
    feature handed to [SetFeature]. *)
Definition write_feature (features : Stats) (year : Z) (overwrite : bool)
    (output_ftr : Feature) : res (option Feature) :=
  output_id ← GetField output_ftr "OPENET_ID";
  crop_type ← GetField output_ftr (crop_type_field year);
  match features_lookup features output_id with
  | None => mret None
  | Some values =>
      let new_type := new_crop_type values year in
      let new_src := new_crop_src values year in
      if new_type =? 0 then mret None
      else
        is_pos ← py_gt0 crop_type;
        if (is_pos && negb overwrite)%bool then mret None
        else
          ftr1 ← SetField output_ftr (crop_type_field year) (PInt new_type);
          ftr2 ← SetField ftr1 (crop_src_field year) new_src;
          mret (Some ftr2)
  end.

(** The feature as the layer holds it after the loop body ran on it: an
    exception or a [continue] leaves the stored feature as it was. *)
Definition stored_after (features : Stats) (year : Z) (overwrite : bool)
    (ftr : Feature) : Feature :=
  match write_feature features year overwrite ftr with
  | inr (Some ftr') => ftr'
  | _ => ftr
  end.

(** [write_features] on an opened layer. *)
Definition write_layer (features : Stats) (year : Z) (overwrite : bool)
    (layer : Layer) : Layer * option exn :=
  update_layer (write_feature features year overwrite) layer.

(** *** The world of the update script *)

(** What the script reads and writes: the state shapefiles under
    [shapefiles/] (keyed by state code, absent when there is no file), the
    local folder of downloaded result files and the bucket folder (both
    keyed by file name).  A result file is modelled by the table
    [read_csv(...).drop(...).set_index('OPENET_ID').to_dict('index')]
    makes of it. *)
Record World : Type := mkWorld {
  shapefiles : gmap string Layer;
  stats_ws : gmap string Stats;
  bucket : gmap string Stats;
}.

Definition set_shapefile (state : string) (layer : Layer) (w : World) : World :=
  mkWorld (<[state := layer]> (shapefiles w)) (stats_ws w) (bucket w).

Definition set_stats (name : string) (table : Stats) (w : World) : World :=
  mkWorld (shapefiles w) (<[name := table]> (stats_ws w)) (bucket w).

(** State passing with exceptions: the world as the command leaves it,
    and either the exception it raised or its value. *)
Definition M (A : Type) : Type := World → World * res A.

#[global] Instance M_ret : MRet M := λ A a w, (w, inr a).
#[global] Instance M_bind : MBind M := λ A B k m w,
  match m w with
  | (w', inl e) => (w', inl e)
  | (w', inr a) => k a w'
  end.

Definition lift {A} (r : res A) : M A := λ w, (w, r).

(** [for x in xs: body], where [continue] ends the body. *)
Fixpoint for_each {A} (xs : list A) (body : A → M unit) : M unit :=
  match xs with
  | [] => mret tt
  | x :: rest => _ ← body x; for_each rest body
  end.

Definition shp_isfile (state : string) : M bool :=
  λ w, (w, inr (bool_decide (is_Some (shapefiles w !! state)))).

Definition stats_isfile (name : string) : M bool :=
  λ w, (w, inr (bool_decide (is_Some (stats_ws w !! name)))).

(** [src_bucket.get_blob(bucket_path).download_to_filename(stats_path)]:
    [get_blob] returns [None] for a blob that does not exist, and the
    method call on [None] raises [AttributeError]. *)
Definition download (stats_name : string) : M unit :=
  λ w, match bucket w !! (bucket_folder +:+ "/" +:+ stats_name) with
       | Some table => (set_stats stats_name table w, inr tt)
       | None => (w, inl AttributeError)
       end.

(** Reading a result file that was just tested with [isfile]. *)
Definition read_stats (name : string) : M Stats :=
  λ w, match stats_ws w !! name with
       | Some table => (w, inr table)
       | None => (w, inl RuntimeError)
       end.

(** Opening the shapefile for update, running a loop over its layer and
    closing it.  [ogr.UseExceptions()] is in force: opening a file that
    does not exist raises [RuntimeError]. *)
Definition with_layer (state : string) (body : Feature → res (option Feature))
    : M unit :=
  λ w, match shapefiles w !! state with
       | None => (w, inl RuntimeError)
       | Some layer =>
           let '(layer', e) := update_layer body layer in
           (set_shapefile state layer' w,
            match e with Some e => inl e | None => inr tt end)
       end.

(** [write_features(shp_path, features, year, overwrite)]. *)
Definition write_features (state : string) (features : Stats) (year : Z)
    (overwrite : bool) : M unit :=
  with_layer state (write_feature features year overwrite).

(** *** [main] *)

Definition enumerate_years (years : list (list Z)) : list Z :=
  if bool_decide (years = []) then year_range
  else merge_sort Z.le (years_in_range years).

(** "Clearing all crop type and source values" (lines 139-143, 231-235). *)
Definition clear_feature (years : list Z) (input_ftr : Feature) : res (option Feature) :=
  Some <$>
    foldl
      (λ (acc : res Feature) year,
         ftr ← acc;
         ftr1 ← SetField ftr (crop_type_field year) (PInt 0);
         SetField ftr1 (crop_src_field year) (PStr ""))
      (mret input_ftr) years.

Definition clear_values (state : string) (years : list Z) : M unit :=
  with_layer state (clear_feature years).

(** "Log the features that don't have crop types" (lines 198-207 and
    352-361).  The f-string [ftr["OPENET_ID"]] is evaluated before
    [logging.debug] is called; [input('ENTER')] waits for a line on the
    terminal and has no other effect. *)
Definition log_row (year : Z) (ftr : Rec) : res unit :=
  v ← getitem ftr (crop_type_field year);
  if py_is_None v then _ ← getitem ftr "OPENET_ID"; mret tt
  else
    v' ← getitem ftr (crop_type_field year);
    if py_eq0 v' then _ ← getitem ftr "OPENET_ID"; mret tt
    else mret tt.

(** The rows are visited in the order of [map_to_list]; the order of the
    rows in the file only decides which row with a missing column raises
    first. *)
Definition log_missing (year : Z) (update_features : Stats) : res unit :=
  foldr (λ ftr k, _ ← log_row year ftr; k) (mret tt)
    (snd <$> map_to_list update_features).

(** The download step of the CDL and Crop Mapping passes: "only download
    stats files on overwrite or if not present". *)
Definition fetch_stats (name : string) (force : bool) : M unit :=
  present ← stats_isfile name;
  if (negb present || force)%bool then download name
  else mret tt.

(** One year of the CDL pass of one state (lines 157-211). *)
Definition cdl_year (state : string) (overwrite_flag : bool) (year : Z) : M unit :=
  let stats_name := lower (state +:+ "_cdl_" +:+ pretty year +:+ ".csv") in
  _ ← fetch_stats stats_name overwrite_flag;
  present ← stats_isfile stats_name;
  if negb present then mret tt
  else
    update_features ← read_stats stats_name;
    _ ← lift (log_missing year update_features);
    write_features state update_features year overwrite_flag.

(** One state of the CDL loop (lines 121-211). *)
Definition cdl_state (states : list string) (years : list Z) (overwrite_flag : bool)
    (state : string) : M unit :=
  if bool_decide (state = "CA") then mret tt
  else
    present ← shp_isfile state;
    if negb present then mret tt
    else
      _ ← (if overwrite_flag then clear_values state years else mret tt);
      match cdl_state_years states years !! state with
      | None => lift (raise KeyError)
      | Some state_years => for_each state_years (cdl_year state overwrite_flag)
      end.

(** "Drop features that have less than 50% Crop Mapping coverage"
    (lines 284-288): the condition of the comprehension on one row. *)
Definition coverage_ok (v : Rec) : res bool :=
  total ← getitem v "PIXEL_TOTAL";
  is_pos ← py_gt0 total;
  if is_pos : bool then
    count ← getitem v "PIXEL_COUNT";
    total' ← getitem v "PIXEL_TOTAL";
    ratio ← py_truediv count total';
    mret (py_ge_half ratio)
  else mret false.

(** The comprehension; as in [log_missing], the order of the rows only
    decides which faulty row raises first. *)
Definition drop_low_coverage (update_features : Stats) : res Stats :=
  foldr
    (λ (row : string * Rec) (rest : res Stats),
       ok ← coverage_ok row.2;
       kept ← rest;
       mret (if ok : bool then <[row.1 := row.2]> kept else kept))
    (mret ∅) (map_to_list update_features).

(** One year of the California Crop Mapping pass (lines 239-303). *)
Definition cadwr_year (overwrite_flag : bool) (year : Z) : M unit :=
  if year <? 2009 then mret tt
  else
    let stats_name := lower ("CA" +:+ "_cadwr_" +:+ pretty year +:+ ".csv") in
    _ ← fetch_stats stats_name overwrite_flag;
    present ← stats_isfile stats_name;
    if negb present then mret tt
    else
      update_features ← read_stats stats_name;
      update_features ← lift (drop_low_coverage update_features);
      write_features "CA" update_features year overwrite_flag.

(** One year of the CA/CDL composite pass (lines 307-365): the file is
    downloaded only when it is not present, and the write step is called
    with [overwrite=False]. *)
Definition composite_year (year : Z) : M unit :=
  if year <? 2008 then mret tt
  else
    let stats_name := lower ("CA" +:+ "_composite_" +:+ pretty year +:+ ".csv") in
    _ ← fetch_stats stats_name false;
    present ← stats_isfile stats_name;
    if negb present then mret tt
    else
      update_features ← read_stats stats_name;
      _ ← lift (log_missing year update_features);
      write_features "CA" update_features year false.

(** California (lines 214-365).  A missing shapefile is logged as
    "skipping", and the block goes on. *)
Definition california (years : list Z) (overwrite_flag : bool) : M unit :=
  _ ← shp_isfile "CA";
  _ ← (if overwrite_flag then clear_values "CA" years else mret tt);
  _ ← for_each years (cadwr_year overwrite_flag);
  for_each years composite_year.

Definition main (states : list string) (years : list (list Z)) (overwrite_flag : bool)
    : M unit :=
  let states := enumerate_states states in
  let years := enumerate_years years in
  _ ← for_each states (cdl_state states years overwrite_flag);
  if bool_decide ("CA" ∈ states) then california years overwrite_flag
  else mret tt.

(** *** Predicates the properties of the update script are stated with *)

(** From a world in [P], the command leaves a world in [Q a] when it
    returns [a], and a world in [E] when it raises. *)
Definition hoare {A} (P : World → Prop) (m : M A) (Q : A → World → Prop)
    (E : World → Prop) : Prop :=
  ∀ w, P w →
    match m w with
    | (w', inr a) => Q a w'
    | (w', inl _) => E w'
    end.

(** [P] holds of the world the command leaves, however it ends. *)
Definition invariant {A} (P : World → Prop) (m : M A) : Prop :=
  hoare P m (λ _, P) P.

(** The feature at position [i] of the layer of [state] satisfies [Q]. *)
Definition feature_at (state : string) (i : nat) (Q : Feature → Prop) (w : World) : Prop :=
  ∃ (layer : Layer) (ftr : Feature),
    shapefiles w !! state = Some layer ∧ layer !! i = Some ftr ∧ Q ftr.

(** The crop type and source of [year] at one feature. *)
Definition year_values (year : Z) (crop src : option PyVal) (ftr : Feature) : Prop :=
  ftr !! crop_type_field year = crop ∧ ftr !! crop_src_field year = src.

(** A row of a Crop Mapping result whose pixel counts are numbers, with
    a zero total or with less than half of the pixels counted. *)
Definition low_coverage (values : Rec) : Prop :=
  ∃ (count total : PyVal) (qc qt : Q),
    values !! "PIXEL_COUNT" = Some count ∧
    values !! "PIXEL_TOTAL" = Some total ∧
    py_number count = inr (Some qc) ∧
    py_number total = inr (Some qt) ∧
    (qt == 0 ∨ qc / qt < 1 # 2)%Q.

(** The feature has the two fields of [year]. *)
Definition has_year_fields (ftr : Feature) (year : Z) : Prop :=
  is_Some (ftr !! crop_type_field year) ∧ is_Some (ftr !! crop_src_field year).

(** The crop type of [year] is 0 and its source is empty. *)
Definition cleared (year : Z) : Feature → Prop :=
  year_values year (Some (PInt 0)) (Some (PStr "")).

(** A property [F] of the bucket and of the local result files that
    shapefile updates keep, and that downloads keep when they are to a
    file name in [ok]. *)
Definition files_pred (ok : string → Prop) (F : World → Prop) : Prop :=
  (∀ w state layer, F w → F (set_shapefile state layer w)) ∧
  (∀ w name table, ok name → F w → F (set_stats name table w)).

(** The values of [year] at position [i] of the layer of [state], together
    with a property [F] of the files. *)
Definition kept_with (state : string) (i : nat) (year : Z) (crop src : option PyVal)
    (F : World → Prop) (w : World) : Prop :=
  feature_at state i (year_values year crop src) w ∧ F w.

(** The update of one state with the overwrite flag set, on a dataset
    [layer]: the clearing goes through and clears every feature for every
    selected year, the merging starts from the cleared dataset, and a
    selected year for which no result file can be obtained ends cleared. *)
Definition clears_before_merging (states : list string) (years : list Z)
    (state : string) (w : World) (layer : Layer) : Prop :=
  ∃ layer1 : Layer,
    clear_values state years w = (set_shapefile state layer1 w, inr tt) ∧
    length layer1 = length layer ∧
    (∀ g y, g ∈ layer1 → y ∈ years → cleared y g) ∧
    (state ≠ "CA" →
       cdl_state states years true state w
       = (match cdl_state_years states years !! state with
          | None => UpdateScript.lift (raise KeyError)
          | Some state_years => for_each state_years (cdl_year state true)
          end) (set_shapefile state layer1 w)) ∧
    (state = "CA" →
       california years true w
       = (_ ← for_each years (cadwr_year true); for_each years composite_year)
           (set_shapefile state layer1 w)) ∧
    ∀ (i : nat) (y : Z), (i < length layer)%nat → y ∈ years →
      (state ≠ "CA" →
         (∀ state_years, cdl_state_years states years !! state = Some state_years →
            y ∈ state_years →
            bucket w !! (bucket_folder +:+ "/" +:+
                           lower (state +:+ "_cdl_" +:+ pretty y +:+ ".csv")) = None) →
         feature_at state i (cleared y) (cdl_state states years true state w).1) ∧
      (state = "CA" →
         (2009 ≤ y →
            bucket w !! (bucket_folder +:+ "/" +:+
                           lower ("CA" +:+ "_cadwr_" +:+ pretty y +:+ ".csv")) = None) →
         (y = 2008 →
            stats_ws w !! lower ("CA" +:+ "_composite_" +:+ pretty y +:+ ".csv") = None ∧
            bucket w !! (bucket_folder +:+ "/" +:+
                           lower ("CA" +:+ "_composite_" +:+ pretty y +:+ ".csv")) = None) →
         feature_at "CA" i (cleared y) (california years true w).1).

(** *** Predicates on what a run leaves alone *)

(** A field other than the crop type and source fields of a year. *)
Definition other_field (name : string) : Prop :=
  ∀ year, name ≠ crop_type_field year ∧ name ≠ crop_src_field year.

(** [g] has the fields of [ftr], with the same values outside the
    per-year fields. *)
Definition same_other_fields (ftr g : Feature) : Prop :=
  dom g = dom ftr ∧ ∀ name, other_field name → g !! name = ftr !! name.

(** The layer of [state] has [n] features. *)
Definition layer_length (state : string) (n : nat) (w : World) : Prop :=
  ∃ layer : Layer, shapefiles w !! state = Some layer ∧ length layer = n.

End UpdateScript.

(** ** The export script *)

Module ExportScript.

Definition cdl_coll_id : string := "USDA/NASS/CDL".
Definition ca_coll_id : string := "projects/openet/assets/crop_type/california".

Definition enumerate_years (years : list (list Z)) : list Z :=
  reverse
    (merge_sort Z.le
       (if bool_decide (years = []) then year_range else years_in_range years)).

(** *** Remap Table (lines 119-127) *)

(** [remap_rows] are the (IN, OUT) rows of the authored CSV.
    [sort_values(by='IN')] orders them by IN; rows with equal IN keep no
    promised order in pandas, here they keep the order of the file. *)
Definition by_IN (a b : Z * Z) : Prop := a.1 ≤ b.1.

#[global] Instance by_IN_dec : RelDecision by_IN := λ a b, decide (a.1 ≤ b.1).

(** [dict(zip(remap_df.IN, remap_df.OUT))]: a later row replaces an
    earlier one with the same IN. *)
Definition authored_remap (remap_rows : list (Z * Z)) : gmap Z Z :=
  foldl (λ table row, <[row.1 := row.2]> table) ∅ (merge_sort by_IN remap_rows).

(** "Set all unassigned values to remap to themselves". *)
Definition cdl_annual_remap (remap_rows : list (Z * Z)) : gmap Z Z :=
  let authored := authored_remap remap_rows in
  let unassigned := filter (λ cdl_code, authored !! cdl_code = None) (seqZ 1 255) in
  foldl (λ table cdl_code, <[cdl_code := cdl_code]> table) authored unassigned.

Definition cdl_remap_in (remap_rows : list (Z * Z)) : list Z :=
  (map_to_list (cdl_annual_remap remap_rows)).*1.
Definition cdl_remap_out (remap_rows : list (Z * Z)) : list Z :=
  (map_to_list (cdl_annual_remap remap_rows)).*2.

(** [image.remap(from, to)] on one pixel value: the value at the position
    of the first match, no value (masked) without a match. *)
Fixpoint ee_remap (from to : list Z) (v : Z) : option Z :=
  match from, to with
  | f :: from', t :: to' => if bool_decide (f = v) then Some t else ee_remap from' to' v
  | _, _ => None
  end.

(** *** Source Selector *)

(** What is selected: the image, whether it goes through the annual crop
    remap, and whether the urban and managed wetland classes (82, 87) of
    the California image are masked. *)
Record Image : Type := mkImage {
  img_id : string;
  remapped : bool;
  mask_82_87 : bool;
}.

Record Source : Type := mkSource {
  image : Image;
  crop_source : string;
}.

(** The CDL image of one (state, year) (lines 207-258).
    [cdl_state_years] is looked at only for a year before [cdl_year_min]. *)
Definition select_cdl (state_years : gmap string (list Z)) (state : string) (year : Z)
    : res Source :=
  if cdl_year_max <? year then
    let cdl_img_id := cdl_coll_id +:+ "/" +:+ pretty cdl_year_max in
    mret (mkSource (mkImage cdl_img_id true false)
                   (cdl_img_id +:+ " - remapped annual crops"))
  else
    fill ←
      (if year <? cdl_year_min then
         match state_years !! state with
         | Some l => mret (bool_decide (year ∉ l))
         | None => raise KeyError
         end
       else mret false);
    if fill : bool then
      let cdl_img_id := cdl_coll_id +:+ "/" +:+ pretty cdl_year_min in
      mret (mkSource (mkImage cdl_img_id true false)
                     (cdl_img_id +:+ " - remapped annual crops"))
    else if year =? 2005 then
      if bool_decide (state = "ID") then
        raise (Exception "ID 2005 CDL image should not be used")
      else
        let cdl_img_id :=
          if bool_decide (state = "MS") then cdl_coll_id +:+ "/2005b"
          else cdl_coll_id +:+ "/2005a" in
        mret (mkSource (mkImage cdl_img_id false false) cdl_img_id)
    else if year =? 2007 then
      if bool_decide (state = "CA") then
        raise (Exception "CA 2007b CDL image should not be used")
      else
        let cdl_img_id := cdl_coll_id +:+ "/2007a" in
        mret (mkSource (mkImage cdl_img_id false false) cdl_img_id)
    else
      let cdl_img_id := cdl_coll_id +:+ "/" +:+ pretty year in
      mret (mkSource (mkImage cdl_img_id false false) cdl_img_id).

Definition ca_direct_years : list Z := [2014; 2016; 2018; 2019; 2020; 2021; 2022; 2023].

(** The California Crop Mapping image of one year (lines 357-386).
    [None] is the [continue] of the branch for years before 2009. *)
Definition select_ca (year : Z) : res (option Source) :=
  let crop_src (ca_img_id : string) :=
    if bool_decide (year ∈ ca_direct_years) then ca_img_id
    else ca_img_id +:+ " - remapped annual crops" in
  if bool_decide (year ∈ ca_direct_years) then
    let ca_img_id := ca_coll_id +:+ "/" +:+ pretty year in
    mret (Some (mkSource (mkImage ca_img_id false false) (crop_src ca_img_id)))
  else if 2023 <? year then
    let ca_img_id := ca_coll_id +:+ "/2023" in
    mret (Some (mkSource (mkImage ca_img_id true false) (crop_src ca_img_id)))
  else if bool_decide (year ∈ [2015; 2017]) then
    let ca_img_id := ca_coll_id +:+ "/" +:+ pretty (year - 1) in
    mret (Some (mkSource (mkImage ca_img_id true false) (crop_src ca_img_id)))
  else if year <? 2009 then mret None
  else if bool_decide (year ∈ [2009; 2010; 2011; 2012; 2013]) then
    let ca_img_id := ca_coll_id +:+ "/2014" in
    mret (Some (mkSource (mkImage ca_img_id true true) (crop_src ca_img_id)))
  else
    raise (Exception ("unexpected California Crop Mapping year: " +:+ pretty year)).

(** The California image of the composite (lines 467-485); the chain has
    no [else], [None] stands for "no branch taken". *)
Definition select_ca_composite (year : Z) : option Image :=
  if bool_decide (year ∈ ca_direct_years) then
    Some (mkImage (ca_coll_id +:+ "/" +:+ pretty year) false false)
  else if 2023 <? year then Some (mkImage (ca_coll_id +:+ "/2023") true false)
  else if bool_decide (year ∈ [2015; 2017]) then
    Some (mkImage (ca_coll_id +:+ "/" +:+ pretty (year - 1)) true false)
  else if year <? 2014 then Some (mkImage (ca_coll_id +:+ "/2014") true true)
  else None.

Fixpoint has_slash (s : string) : bool :=
  match s with
  | EmptyString => false
  | String c r => (Ascii.eqb c "/"%char || has_slash r)%bool
  end.

(** [s.split("/")[-1]]. *)
Fixpoint last_component (s : string) : string :=
  match s with
  | EmptyString => EmptyString
  | String c r =>
      if has_slash r then last_component r
      else if Ascii.eqb c "/"%char then r
      else s
  end.

(** *** Remote Job Submitter *)

(** An export job as it is handed to [ee.batch.Export.table.toCloudStorage]: the
    description, the file name prefix in the bucket, the images the crop
    type is read from (the first with a value wins) and the provenance
    written to [CSRC_<year>]. *)
Record Job : Type := mkJob {
  description : string;
  fileNamePrefix : string;
  images : list Image;
  provenance : string;
}.

(** The calls made on the remote service, in order.  A call is assumed
    to reach the service. *)
Inductive Action : Type :=
  | CancelTask (task_id : string)
  | StartTask (job : Job).

(** A run: the calls made so far, and either the exception that ended it
    or a value. *)
Definition X (A : Type) : Type := (list Action * res A)%type.

#[global] Instance X_ret : MRet X := λ A a, ([], inr a).
#[global] Instance X_bind : MBind X := λ A B k m,
  match m with
  | (log, inl e) => (log, inl e)
  | (log, inr a) => let '(log', r) := k a in ((log ++ log')%list, r)
  end.

Definition emit (a : Action) : X unit := ([a], inr tt).
Definition lift {A} (r : res A) : X A := ([], r).

Fixpoint for_each {A} (xs : list A) (body : A → X unit) : X unit :=
  match xs with
  | [] => mret tt
  | x :: rest => _ ← body x; for_each rest body
  end.

(** The snapshot of the active tasks, description to task id, and the
    names of the files in the bucket folder. *)
Record Remote : Type := mkRemote {
  tasks : gmap string string;
  bucket_files : list string;
}.

(** The overwrite and skip decision, written out three times in the
    script (lines 184-199, 337-352, 445-460).  [true]: go on and submit;
    [false]: [continue]. *)
Definition gate (overwrite_flag : bool) (remote : Remote) (export_id : string) : X bool :=
  if overwrite_flag then
    _ ← match tasks remote !! export_id with
        | Some task_id => emit (CancelTask task_id)
        | None => mret tt
        end;
    mret true
  else if bool_decide (is_Some (tasks remote !! export_id)) then mret false
  else if bool_decide ((export_id +:+ ".csv") ∈ bucket_files remote) then mret false
  else mret true.

Definition start (export_id : string) (imgs : list Image) (src : string) : X unit :=
  emit (StartTask (mkJob export_id (bucket_folder +:+ "/" +:+ export_id) imgs src)).

(** One (state, year) of the CDL loop (lines 175-312). *)
Definition cdl_pair (state_years : gmap string (list Z)) (overwrite_flag : bool)
    (remote : Remote) (state : string) (year : Z) : X unit :=
  let export_id := lower (state +:+ "_cdl_" +:+ pretty year) in
  match state_years !! state with
  | None => mret tt
  | Some l =>
      if bool_decide (year ∉ l) then mret tt
      else
        go ← gate overwrite_flag remote export_id;
        if go : bool then
          src ← lift (select_cdl state_years state year);
          start export_id [image src] (crop_source src)
        else mret tt
  end.

Definition cdl_state (state_years : gmap string (list Z)) (years : list Z)
    (overwrite_flag : bool) (remote : Remote) (state : string) : X unit :=
  if bool_decide (state = "CA") then mret tt
  else for_each years (cdl_pair state_years overwrite_flag remote state).

(** One year of the California Crop Mapping loop (lines 323-427). *)
Definition landiq_year (overwrite_flag : bool) (remote : Remote) (year : Z) : X unit :=
  if year <? 2009 then mret tt
  else
    let export_id := lower ("CA" +:+ "_landiq_" +:+ pretty year) in
    go ← gate overwrite_flag remote export_id;
    if go : bool then
      sel ← lift (select_ca year);
      match sel with
      | None => mret tt
      | Some src => start export_id [image src] (crop_source src)
      end
    else mret tt.

(** One year of the composite loop (lines 438-566). *)
Definition composite_year (overwrite_flag : bool) (remote : Remote) (year : Z) : X unit :=
  if year <? cdl_year_min then mret tt
  else
    let export_id := lower ("CA" +:+ "_composite_" +:+ pretty year) in
    go ← gate overwrite_flag remote export_id;
    if go : bool then
      match select_ca_composite year with
      | None => lift (raise (Exception "ca_img_id is not assigned"))
      | Some ca_img =>
          let cdl_img_id :=
            cdl_coll_id +:+ "/" +:+ pretty (Z.min (Z.max year cdl_year_min) cdl_year_max) in
          let cdl_img := mkImage cdl_img_id true false in
          if year <? 2009 then
            start export_id [cdl_img] (cdl_img_id +:+ " - remapped annual crops")
          else
            start export_id [ca_img; cdl_img]
              ("CA" +:+ last_component (img_id ca_img) +:+ " " +:+
               "CDL" +:+ last_component cdl_img_id +:+ " composite" +:+
               " - remapped annual crops")
      end
    else mret tt.

(** [main] after Earth Engine is initialised, given the task snapshot and
    the bucket listing it fetches once. *)
Definition main (states : list string) (years : list (list Z)) (overwrite_flag : bool)
    (remote : Remote) : X unit :=
  let states := enumerate_states states in
  let years := enumerate_years years in
  let state_years := cdl_state_years states years in
  _ ← for_each states (cdl_state state_years years overwrite_flag remote);
  _ ← (if bool_decide ("CA" ∈ states) then for_each years (landiq_year overwrite_flag remote)
       else mret tt);
  if bool_decide ("CA" ∈ states) then for_each years (composite_year overwrite_flag remote)
  else mret tt.

(** *** Predicates the properties of the export script are stated with *)

(** The run returns a value in [Q], and every call it made is in [Φ]. *)
Definition run_spec {A} (m : X A) (Φ : Action → Prop) (Q : A → Prop) : Prop :=
  Forall Φ m.1 ∧ ∃ a, m.2 = inr a ∧ Q a.

(** The calls that can be made with the overwrite flag off: starting a
    job whose identifier is neither an active task nor a finished file. *)
Definition fresh_start (remote : Remote) (a : Action) : Prop :=
  ∃ job, a = StartTask job ∧
         tasks remote !! description job = None ∧
         (description job +:+ ".csv") ∉ bucket_files remote.

Definition permitted (overwrite_flag : bool) (remote : Remote) (a : Action) : Prop :=
  if overwrite_flag then True else fresh_start remote a.

Definition may_start (overwrite_flag : bool) (remote : Remote) (export_id : string) : Prop :=
  if overwrite_flag then True
  else tasks remote !! export_id = None ∧ (export_id +:+ ".csv") ∉ bucket_files remote.

(** *** Predicates on the calls of a run *)

(** The year of the California Crop Mapping image read for [year]: the
    year itself when it has an image, otherwise the nearest mapped year
    the selector names. *)
Definition ca_image_year (year : Z) : Z :=
  if bool_decide (year ∈ ca_direct_years) then year
  else if 2023 <? year then 2023
  else if bool_decide (year ∈ [2015; 2017]) then year - 1
  else 2014.

(** The identifier of the CDL image of a covered (state, year). *)
Definition cdl_native_id (state : string) (year : Z) : string :=
  if year =? 2005 then
    if bool_decide (state = "MS") then cdl_coll_id +:+ "/2005b" else cdl_coll_id +:+ "/2005a"
  else if year =? 2007 then cdl_coll_id +:+ "/2007a"
  else cdl_coll_id +:+ "/" +:+ pretty year.

(** The three kinds of export of a run, and the (state, year) each is
    made for. *)
Definition export_kind (states : list string) (state kind : string) (year : Z) : Prop :=
  (kind = "_cdl_" ∧ state ≠ "CA" ∧ covered states state year = true) ∨
  (kind = "_landiq_" ∧ state = "CA" ∧ 2009 ≤ year) ∨
  (kind = "_composite_" ∧ state = "CA" ∧ cdl_year_min ≤ year).

Definition expected_call (states : list string) (years : list Z) (overwrite_flag : bool)
    (remote : Remote) (a : Action) : Prop :=
  match a with
  | CancelTask task_id =>
      overwrite_flag = true ∧ ∃ export_id, tasks remote !! export_id = Some task_id
  | StartTask job =>
      fileNamePrefix job = bucket_folder +:+ "/" +:+ description job ∧
      lower (description job) = description job ∧
      ∃ state kind year,
        state ∈ states ∧ year ∈ years ∧ export_kind states state kind year ∧
        description job = lower (state +:+ kind +:+ pretty year)
  end.

(** A log in which every cancelled task is resubmitted by the next call,
    under the description the task was found with. *)
Inductive resubmitted (remote : Remote) : list Action → Prop :=
  | resubmitted_nil : resubmitted remote []
  | resubmitted_start job log :
      resubmitted remote log → resubmitted remote (StartTask job :: log)
  | resubmitted_cancel task_id job log :
      tasks remote !! description job = Some task_id →
      resubmitted remote log →
      resubmitted remote (CancelTask task_id :: StartTask job :: log).

End ExportScript.

(** ** Tactics *)

(** Unfolding the binds of [res]. *)
Ltac res_simpl :=
  unfold mbind, mret, fmap, res_bind, res_ret, res_fmap, raise, try_except in *; simpl in *.

(** The entry of one override year, read off the table. *)
Ltac override_year :=
  unfold covered, cdl_year_states; cbv zeta;
  rewrite ?lookup_insert_ne by lia; rewrite lookup_insert_eq;
  apply bool_decide_eq_true.

(** [x ∉ [a; b; ...]] as the inequalities it stands for. *)
Ltac split_not_in H := repeat (apply not_elem_of_cons in H as [? H]).

(** * Properties *)

(** ** The embedding on concrete inputs *)

Example int_truncates : py_int (PFloat (7 # 2)) = inr 3 ∧ py_int (PFloat (-7 # 2)) = inr (-3).
Proof. split; reflexivity. Qed.

Example int_of_text :
  py_int (PStr " 1_000 ") = inr 1000 ∧ py_int (PStr "-12") = inr (-12) ∧
  py_int (PStr "corn") = inl ValueError ∧ py_int PNaN = inl ValueError.
Proof. repeat split; reflexivity. Qed.

Example states_enumerated :
  enumerate_states ["nd, CA"; "AZ,"] = ["AZ"; "CA"; "nd"] ∧
  length (enumerate_states ["ALL"]) = 47%nat.
Proof. split; vm_compute; reflexivity. Qed.

Example years_enumerated :
  UpdateScript.enumerate_years [[2027; 2005; 1990]; [2005; 2001]] = [2001; 2005] ∧
  ExportScript.enumerate_years [[2005; 2001; 2027]] = [2005; 2001] ∧
  ExportScript.enumerate_years [[2027]] = [].
Proof. repeat split; vm_compute; reflexivity. Qed.

Example field_names : crop_type_field 2020 = "CROP_2020" ∧ crop_src_field 1997 = "CSRC_1997".
Proof. split; reflexivity. Qed.

(** A row with a crop type replaces an unset value, and a set value only
    with [overwrite]. *)
Example write_feature_cases :
  let unset : Feature :=
    {[ "OPENET_ID" := PStr "ND_1"; "CROP_2020" := PInt 0; "CSRC_2020" := PStr "" ]} in
  let set : Feature :=
    {[ "OPENET_ID" := PStr "ND_1"; "CROP_2020" := PInt 150; "CSRC_2020" := PStr "old" ]} in
  let new : Feature :=
    {[ "OPENET_ID" := PStr "ND_1"; "CROP_2020" := PInt 36; "CSRC_2020" := PStr "USDA/NASS/CDL/2020" ]} in
  let features : Stats :=
    {[ "ND_1" := {[ "CROP_2020" := PFloat (36 # 1); "CSRC_2020" := PStr "USDA/NASS/CDL/2020" ]} ]} in
  UpdateScript.stored_after features 2020 false unset = new ∧
  UpdateScript.stored_after features 2020 false set = set ∧
  UpdateScript.stored_after features 2020 true set = new.
Proof. repeat split; vm_compute; reflexivity. Qed.

(** ND 1997: the coverage table lists only ND, and the image of the year is
    used as it is. *)
Example nd_1997 :
  ExportScript.main ["ND"; "SD"] [[1997]] false (ExportScript.mkRemote ∅ [])
  = ([ExportScript.StartTask
        (ExportScript.mkJob "nd_cdl_1997" "temp_croptype_20250414/nd_cdl_1997"
           [ExportScript.mkImage "USDA/NASS/CDL/1997" false false]
           "USDA/NASS/CDL/1997")],
     inr tt).
Proof. vm_compute. reflexivity. Qed.

(** An active task: cancelled and resubmitted with the overwrite flag,
    left alone without it. *)
Example active_task :
  let remote := ExportScript.mkRemote {[ "ms_cdl_2005" := "TASK1" ]} [] in
  (ExportScript.main ["MS"] [[2005]] true remote).1
  = [ExportScript.CancelTask "TASK1";
     ExportScript.StartTask
       (ExportScript.mkJob "ms_cdl_2005" "temp_croptype_20250414/ms_cdl_2005"
          [ExportScript.mkImage "USDA/NASS/CDL/2005b" false false] "USDA/NASS/CDL/2005b")] ∧
  (ExportScript.main ["MS"] [[2005]] false remote).1 = [].
Proof. split; vm_compute; reflexivity. Qed.

Example california_sources :
  ExportScript.select_ca 2012
  = inr (Some (ExportScript.mkSource
                 (ExportScript.mkImage "projects/openet/assets/crop_type/california/2014" true true)
                 "projects/openet/assets/crop_type/california/2014 - remapped annual crops")) ∧
  ExportScript.select_ca 2017
  = inr (Some (ExportScript.mkSource
                 (ExportScript.mkImage "projects/openet/assets/crop_type/california/2016" true false)
                 "projects/openet/assets/crop_type/california/2016 - remapped annual crops")) ∧
  ExportScript.last_component "projects/openet/assets/crop_type/california/2016" = "2016".
Proof. repeat split; vm_compute; reflexivity. Qed.

(** A low-coverage row is dropped, a row with half of its pixels is kept. *)
Example coverage_cases :
  UpdateScript.coverage_ok {[ "PIXEL_COUNT" := PInt 4; "PIXEL_TOTAL" := PInt 10 ]} = inr false ∧
  UpdateScript.coverage_ok {[ "PIXEL_COUNT" := PInt 5; "PIXEL_TOTAL" := PInt 10 ]} = inr true ∧
  UpdateScript.coverage_ok {[ "PIXEL_COUNT" := PInt 0; "PIXEL_TOTAL" := PInt 0 ]} = inr false ∧
  UpdateScript.coverage_ok {[ "PIXEL_COUNT" := PNaN; "PIXEL_TOTAL" := PFloat (10 # 1) ]} = inr false ∧
  UpdateScript.coverage_ok {[ "PIXEL_COUNT" := PInt 4 ]} = inl KeyError.
Proof. repeat split; vm_compute; reflexivity. Qed.

(** ** Field names *)

Lemma crop_type_field_ne_src (y y' : Z) : crop_type_field y ≠ crop_src_field y'.
Proof. unfold crop_type_field, crop_src_field. intros H. discriminate H. Qed.

Lemma crop_type_field_ne_id (y : Z) : crop_type_field y ≠ "OPENET_ID".
Proof. unfold crop_type_field. intros H. discriminate H. Qed.

Lemma crop_src_field_ne_id (y : Z) : crop_src_field y ≠ "OPENET_ID".
Proof. unfold crop_src_field. intros H. discriminate H. Qed.

Lemma crop_type_field_inj (y y' : Z) : crop_type_field y = crop_type_field y' → y = y'.
Proof.
  unfold crop_type_field. intros H.
  apply (inj pretty). by injection H.
Qed.

Lemma crop_src_field_inj (y y' : Z) : crop_src_field y = crop_src_field y' → y = y'.
Proof.
  unfold crop_src_field. intros H.
  apply (inj pretty). by injection H.
Qed.

Create HintDb fields.
#[local] Hint Resolve crop_type_field_ne_src crop_type_field_ne_id crop_src_field_ne_id : fields.

(** ** The loop over a layer *)

Section update_layer_facts.
Context (body : Feature → res (option Feature)).

Lemma update_layer_length (layer : Layer) :
  length (update_layer body layer).1 = length layer.
Proof.
  induction layer as [|ftr rest IH]; simpl; [done|].
  destruct (body ftr) as [e|out]; simpl; [done|].
  destruct (update_layer body rest) as [rest' e']. simpl in *. by rewrite IH.
Qed.

(** A feature of the layer is, after the loop, either as it was or what
    the body handed to [SetFeature]. *)
Lemma update_layer_lookup (layer : Layer) (i : nat) (ftr : Feature) :
  layer !! i = Some ftr →
  (update_layer body layer).1 !! i = Some ftr ∨
  ∃ ftr', body ftr = inr (Some ftr') ∧ (update_layer body layer).1 !! i = Some ftr'.
Proof.
  revert i. induction layer as [|f rest IH]; intros i Hi; [done|].
  simpl. destruct (body f) as [e|out] eqn:Hb; simpl; [by left|].
  destruct (update_layer body rest) as [rest' e'] eqn:Hr. simpl in *.
  destruct i as [|i]; simpl in *.
  - simplify_eq. destruct out as [g|]; simpl; [right; eauto | by left].
  - apply IH in Hi. done.
Qed.

Lemma update_layer_keeps (layer : Layer) (i : nat) (ftr : Feature) :
  layer !! i = Some ftr →
  (∀ ftr', body ftr ≠ inr (Some ftr')) →
  (update_layer body layer).1 !! i = Some ftr.
Proof.
  intros Hi Hno. destruct (update_layer_lookup layer i ftr Hi) as [?|(g & Hg & _)]; [done|].
  by destruct (Hno g).
Qed.

(** No exception: every feature went through the body. *)
Lemma update_layer_done (layer : Layer) (i : nat) (ftr : Feature) :
  (update_layer body layer).2 = None →
  layer !! i = Some ftr →
  ∃ out, body ftr = inr out ∧ (update_layer body layer).1 !! i = Some (default ftr out).
Proof.
  revert i. induction layer as [|f rest IH]; intros i He Hi; [done|].
  simpl in *. destruct (body f) as [e|out] eqn:Hb; simpl in *; [done|].
  destruct (update_layer body rest) as [rest' e'] eqn:Hr. simpl in *.
  destruct i as [|i]; simpl in *.
  - simplify_eq. eauto.
  - by apply IH.
Qed.

(** Running the loop a second time changes nothing when the body, run
    on what it stored, stores the same again. *)
Lemma update_layer_twice (layer : Layer) :
  (∀ ftr out, body ftr = inr out →
     ∃ out', body (default ftr out) = inr out' ∧
             default (default ftr out) out' = default ftr out) →
  update_layer body (update_layer body layer).1 = update_layer body layer.
Proof.
  intros Hbody. induction layer as [|ftr rest IH]; [done|].
  simpl. destruct (body ftr) as [e|out] eqn:Hb; simpl.
  - by rewrite Hb.
  - destruct (update_layer body rest) as [rest' e'] eqn:Hr. simpl in *.
    destruct (Hbody ftr out Hb) as (out' & Hb' & Hsame).
    rewrite Hb', IH, Hsame. done.
Qed.
End update_layer_facts.

Module UpdateFacts.
Import UpdateScript.

(** ** The write step *)

(** The features the write step hands to [SetFeature]. *)
Lemma write_feature_written (features : Stats) (year : Z) (overwrite : bool)
    (ftr ftr' : Feature) :
  write_feature features year overwrite ftr = inr (Some ftr') →
  ∃ output_id crop_type values is_pos,
    ftr !! "OPENET_ID" = Some output_id ∧
    ftr !! crop_type_field year = Some crop_type ∧
    features_lookup features output_id = Some values ∧
    new_crop_type values year ≠ 0 ∧
    py_gt0 crop_type = inr is_pos ∧
    (is_pos && negb overwrite)%bool = false ∧
    is_Some (ftr !! crop_src_field year) ∧
    ftr' = <[crop_src_field year := new_crop_src values year]>
             (<[crop_type_field year := PInt (new_crop_type values year)]> ftr).
Proof.
  unfold write_feature, GetField, SetField. intros H.
  destruct (ftr !! "OPENET_ID") as [oid|] eqn:Hid; res_simpl; [|done].
  destruct (ftr !! crop_type_field year) as [ct|] eqn:Hct; res_simpl; [|done].
  destruct (features_lookup features oid) as [values|] eqn:Hv; [|done].
  destruct (Z.eqb_spec (new_crop_type values year) 0) as [|Hne]; [done|].
  destruct (py_gt0 ct) as [e|b] eqn:Hpos; [done|].
  destruct (b && negb overwrite)%bool eqn:Hb; [done|].
  rewrite lookup_insert_ne in H by auto with fields.
  destruct (ftr !! crop_src_field year) as [cs|] eqn:Hcs; [|done].
  exists oid, ct, values, b. simplify_eq. eauto 10.
Qed.

(** A row without information: its crop type is 0, or [int] raises on it
    (or the column is missing) and the value falls back to 0. *)
Lemma new_crop_type_zero (values : Rec) (year : Z) :
  ((v ← getitem values (crop_type_field year); py_int v) = inr 0 ∨
   ∃ e, (v ← getitem values (crop_type_field year); py_int v) = inl e) ↔
  new_crop_type values year = 0.
Proof.
  unfold new_crop_type, try_except.
  destruct (v ← getitem values (crop_type_field year); py_int v) as [e|z]; split.
  - done.
  - eauto.
  - intros [?|[? ?]]; by simplify_eq.
  - intros ->. by left.
Qed.

Lemma write_feature_zero (features : Stats) (year : Z) (overwrite : bool)
    (ftr : Feature) (output_id : PyVal) (values : Rec) :
  ftr !! "OPENET_ID" = Some output_id →
  features_lookup features output_id = Some values →
  new_crop_type values year = 0 →
  ∀ ftr', write_feature features year overwrite ftr ≠ inr (Some ftr').
Proof.
  intros Hid Hv Hz ftr' Hw.
  apply write_feature_written in Hw as (oid & ct & values' & b & ? & ? & ? & Hne & _).
  by simplify_eq.
Qed.

(** The write step does not touch the fields of another year, nor any
    other field. *)
Lemma write_feature_frame (features : Stats) (year : Z) (overwrite : bool)
    (ftr ftr' : Feature) (name : string) :
  write_feature features year overwrite ftr = inr (Some ftr') →
  name ≠ crop_type_field year → name ≠ crop_src_field year →
  ftr' !! name = ftr !! name.
Proof.
  intros Hw H1 H2.
  apply write_feature_written in Hw as (oid & ct & values & b & _ & _ & _ & _ & _ & _ & _ & ->).
  by rewrite !lookup_insert_ne.
Qed.

(** A positive crop type is kept when [overwrite] is off. *)
Lemma write_feature_positive (features : Stats) (year : Z) (ftr : Feature) (z : Z) :
  ftr !! crop_type_field year = Some (PInt z) → 0 < z →
  ∀ ftr', write_feature features year false ftr ≠ inr (Some ftr').
Proof.
  intros Hct Hz ftr' Hw.
  apply write_feature_written in Hw as (oid & ct & values & b & _ & Hct' & _ & _ & Hpos & Hb & _).
  simplify_eq. injection Hpos as <-.
  rewrite andb_true_r in Hb. apply Z.ltb_ge in Hb. lia.
Qed.

(** Run on what it stored, the write step with [overwrite] off stores the
    same again. *)
Lemma write_feature_again (features : Stats) (year : Z) (ftr : Feature)
    (out : option Feature) :
  write_feature features year false ftr = inr out →
  ∃ out', write_feature features year false (default ftr out) = inr out' ∧
          default (default ftr out) out' = default ftr out.
Proof.
  intros Hw. destruct out as [ftr'|]; simpl; [|by exists None].
  apply write_feature_written in Hw
    as (oid & ct & values & b & Hid & Hct & Hv & Hne & Hpos & Hb & [cs Hcs] & ->).
  set (n := new_crop_type values year) in *.
  set (s := new_crop_src values year) in *.
  set (g := <[crop_src_field year := s]> (<[crop_type_field year := PInt n]> ftr)).
  assert (Hgid : g !! "OPENET_ID" = Some oid).
  { unfold g. rewrite !lookup_insert_ne by (apply not_eq_sym; auto with fields). done. }
  assert (Hgct : g !! crop_type_field year = Some (PInt n)).
  { unfold g. rewrite lookup_insert_ne by (apply not_eq_sym; auto with fields).
    by rewrite lookup_insert_eq. }
  assert (Hgcs : g !! crop_src_field year = Some s).
  { unfold g. by rewrite lookup_insert_eq. }
  unfold write_feature, GetField, SetField. rewrite Hgid, Hgct. res_simpl.
  rewrite Hv. fold n s.
  destruct (Z.eqb_spec n 0) as [|_]; [done|].
  destruct (0 <? n); simpl; [by exists None|].
  rewrite lookup_insert_ne by auto with fields. rewrite Hgcs.
  eexists; split; [done|]. simpl.
  rewrite (insert_id g (crop_type_field year)) by done.
  by rewrite insert_id.
Qed.

(** C1.  In the write step, a row whose crop type is 0, or on which [int]
    raises so that the value falls back to 0, leaves the feature with that
    identifier as it was, whatever the [overwrite] flag: the body of the
    loop stores nothing for it, and the layer holds the same feature after
    [write_features]. *)
Theorem zero_crop_type_never_written (features : Stats) (year : Z) (overwrite : bool)
    (layer : Layer) (i : nat) (ftr : Feature) (output_id : PyVal) (values : Rec) :
  layer !! i = Some ftr →
  ftr !! "OPENET_ID" = Some output_id →
  features_lookup features output_id = Some values →
  ((v ← getitem values (crop_type_field year); py_int v) = inr 0 ∨
   ∃ e, (v ← getitem values (crop_type_field year); py_int v) = inl e) →
  stored_after features year overwrite ftr = ftr ∧
  (write_layer features year overwrite layer).1 !! i = Some ftr.
Proof.
  intros Hi Hid Hv Hz. apply new_crop_type_zero in Hz.
  pose proof (write_feature_zero features year overwrite ftr output_id values Hid Hv Hz) as Hno.
  split.
  - unfold stored_after.
    destruct (write_feature features year overwrite ftr) as [e|[g|]] eqn:Hw; try done.
    by destruct (Hno g).
  - by apply update_layer_keeps.
Qed.

Lemma zero_crop_type_never_written_witness :
  let ftr : Feature :=
    {[ "OPENET_ID" := PStr "ND_1"; "CROP_2020" := PInt 150; "CSRC_2020" := PStr "USDA/NASS/CDL/2020" ]} in
  let values : Rec := {[ "CROP_2020" := PInt 0; "CSRC_2020" := PStr "USDA/NASS/CDL/2020" ]} in
  stored_after {[ "ND_1" := values ]} 2020 true ftr = ftr ∧
  (write_layer {[ "ND_1" := values ]} 2020 true [ftr]).1 !! 0%nat = Some ftr.
Proof.
  intros ftr values.
  apply (zero_crop_type_never_written {[ "ND_1" := values ]} 2020 true [ftr] 0 ftr
           (PStr "ND_1") values).
  - reflexivity.
  - reflexivity.
  - reflexivity.
  - left. reflexivity.
Defined.

(** C2.  With [overwrite] off, writing the same result table a second
    time changes nothing: on one feature, on a layer (the layer and the
    way the loop ends are the same), and on the shapefile of a state. *)
Theorem merge_idempotent (features : Stats) (year : Z) :
  (∀ ftr : Feature,
     stored_after features year false (stored_after features year false ftr)
     = stored_after features year false ftr) ∧
  (∀ layer : Layer,
     write_layer features year false (write_layer features year false layer).1
     = write_layer features year false layer) ∧
  (∀ (state : string) (w : World),
     write_features state features year false
       (write_features state features year false w).1
     = write_features state features year false w).
Proof.
  assert (Hlayer : ∀ layer : Layer,
     write_layer features year false (write_layer features year false layer).1
     = write_layer features year false layer).
  { intros layer. unfold write_layer. apply update_layer_twice.
    intros ftr out. apply write_feature_again. }
  split; [|split; [done|]].
  - intros ftr. unfold stored_after at 2 3.
    destruct (write_feature features year false ftr) as [e|out] eqn:Hw.
    + unfold stored_after. by rewrite Hw.
    + destruct (write_feature_again _ _ _ _ Hw) as (out' & Hw' & Hsame).
      replace (match out with Some ftr' => ftr' | None => ftr end) with (default ftr out)
        by by destruct out.
      unfold stored_after. rewrite Hw'.
      destruct out'; simpl in *; done.
  - intros state w. unfold write_features, with_layer.
    destruct (shapefiles w !! state) as [layer|] eqn:Hl; simpl.
    + specialize (Hlayer layer). unfold write_layer in Hlayer.
      destruct (update_layer (write_feature features year false) layer) as [layer' e] eqn:Hu.
      simpl in *. rewrite lookup_insert_eq. rewrite Hlayer.
      unfold set_shapefile. simpl. by rewrite insert_insert_eq.
    + by rewrite Hl.
Qed.

(** ** Reasoning on a run of the update script *)

Lemma invariant_final {A} (P : World → Prop) (m : M A) (w : World) :
  invariant P m → P w → P (m w).1.
Proof. intros Hm Hw. specialize (Hm w Hw). by destruct (m w) as [w' [e|a]]. Qed.

Section hoare_rules.
Context {A B : Type}.
Implicit Types (P E : World → Prop).

Lemma hoare_ret P E (a : A) (Q : A → World → Prop) :
  (∀ w, P w → Q a w) → hoare P (mret a : M A) Q E.
Proof. intros H w Hw. by apply H. Qed.

Lemma hoare_lift P E (r : res A) (Q : A → World → Prop) :
  (∀ w a, P w → r = inr a → Q a w) → (∀ w, P w → E w) →
  hoare P (UpdateScript.lift r) Q E.
Proof. intros HQ HE w Hw. unfold UpdateScript.lift. destruct r; eauto. Qed.

Lemma hoare_bind P E (m : M A) (k : A → M B) (Q : A → World → Prop)
    (R : B → World → Prop) :
  hoare P m Q E → (∀ a, hoare (Q a) (k a) R E) → hoare P (m ≫= k) R E.
Proof.
  intros Hm Hk w Hw. unfold mbind, M_bind.
  specialize (Hm w Hw). destruct (m w) as [w' [e|a]]; [done|].
  by apply Hk.
Qed.

Lemma hoare_weaken P P' E E' (m : M A) (Q Q' : A → World → Prop) :
  hoare P' m Q' E' →
  (∀ w, P w → P' w) → (∀ a w, Q' a w → Q a w) → (∀ w, E' w → E w) →
  hoare P m Q E.
Proof.
  intros Hm HP HQ HE w Hw. specialize (Hm w (HP w Hw)).
  destruct (m w) as [w' [e|a]]; eauto.
Qed.

Lemma hoare_if P E (b : bool) (m1 m2 : M A) (Q : A → World → Prop) :
  (b = true → hoare P m1 Q E) → (b = false → hoare P m2 Q E) →
  hoare P (if b then m1 else m2) Q E.
Proof. destruct b; eauto. Qed.
End hoare_rules.

Section invariant_rules.
Context (P : World → Prop).

Lemma invariant_ret {A} (a : A) : invariant P (mret a : M A).
Proof. by apply hoare_ret. Qed.

Lemma invariant_lift {A} (r : res A) : invariant P (UpdateScript.lift r).
Proof. by apply hoare_lift. Qed.

Lemma invariant_bind {A B} (m : M A) (k : A → M B) :
  invariant P m → (∀ a, invariant P (k a)) → invariant P (m ≫= k).
Proof. intros Hm Hk. by eapply hoare_bind. Qed.

Lemma invariant_if {A} (b : bool) (m1 m2 : M A) :
  invariant P m1 → invariant P m2 → invariant P (if b then m1 else m2).
Proof. by destruct b. Qed.

Lemma invariant_for_each {A} (xs : list A) (body : A → M unit) :
  (∀ x, x ∈ xs → invariant P (body x)) → invariant P (for_each xs body).
Proof.
  induction xs as [|x rest IH]; intros Hbody; simpl.
  - apply invariant_ret.
  - apply invariant_bind.
    + apply Hbody. by left.
    + intros _. apply IH. intros y Hy. apply Hbody. by right.
Qed.

(** A loop with a body that is bound to raise on one of its elements,
    raises. *)
Lemma for_each_raises {A} (xs : list A) (body : A → M unit) (x0 : A) :
  x0 ∈ xs →
  (∀ x, x ∈ xs → invariant P (body x)) →
  hoare P (body x0) (λ _ _, False) P →
  hoare P (for_each xs body) (λ _ _, False) P.
Proof.
  intros Hin Hbody Hx0. induction xs as [|x rest IH]; [by apply elem_of_nil in Hin|].
  simpl. apply elem_of_cons in Hin as [Heq|Hin]; [subst x|].
  - eapply hoare_bind; [apply Hx0|]. by intros [] w [].
  - eapply hoare_bind; [apply Hbody; by left|].
    intros []. apply IH; [done|]. intros y Hy. apply Hbody. by right.
Qed.

Lemma invariant_shp_isfile (state : string) : invariant P (shp_isfile state).
Proof. by intros w Hw. Qed.

Lemma invariant_stats_isfile (name : string) : invariant P (stats_isfile name).
Proof. by intros w Hw. Qed.

Lemma invariant_read_stats (name : string) : invariant P (read_stats name).
Proof. intros w Hw. unfold read_stats. by destruct (stats_ws w !! name). Qed.
End invariant_rules.

(** ** Features of a shapefile along a run *)

Lemma download_spec (P : World → Prop) (name : string) :
  (∀ w table, P w → bucket w !! (bucket_folder +:+ "/" +:+ name) = Some table →
     P (set_stats name table w)) →
  invariant P (download name).
Proof.
  intros HP w Hw. unfold download.
  destruct (bucket w !! (bucket_folder +:+ "/" +:+ name)) eqn:Hb; [by apply HP | done].
Qed.

Lemma fetch_stats_spec (P : World → Prop) (name : string) (force : bool) :
  (∀ w table, P w → bucket w !! (bucket_folder +:+ "/" +:+ name) = Some table →
     P (set_stats name table w)) →
  invariant P (fetch_stats name force).
Proof.
  intros HP. unfold fetch_stats. apply invariant_bind; [apply invariant_stats_isfile|].
  intros present. apply invariant_if; [by apply download_spec | apply invariant_ret].
Qed.

Lemma feature_at_fetch_stats (state : string) (i : nat) (Q : Feature → Prop)
    (name : string) (force : bool) :
  invariant (feature_at state i Q) (fetch_stats name force).
Proof. by apply fetch_stats_spec. Qed.

(** A forced download of a file the bucket does not hold raises. *)
Lemma fetch_stats_missing (P : World → Prop) (name : string) :
  (∀ w, P w → bucket w !! (bucket_folder +:+ "/" +:+ name) = None) →
  hoare P (fetch_stats name true) (λ _ _, False) P.
Proof.
  intros HP w Hw. unfold fetch_stats, stats_isfile, download, mbind, M_bind.
  rewrite orb_true_r. by rewrite (HP w Hw).
Qed.

(** A loop over the layer of [state'] keeps [Q] at position [i] of the
    layer of [state] when what its body stores keeps [Q]. *)
Lemma feature_at_with_layer (state state' : string) (i : nat) (Q : Feature → Prop)
    (body : Feature → res (option Feature)) :
  (state' = state → ∀ ftr g, Q ftr → body ftr = inr (Some g) → Q g) →
  invariant (feature_at state i Q) (with_layer state' body).
Proof.
  intros Hbody. cut (∀ w, feature_at state i Q w → feature_at state i Q (with_layer state' body w).1).
  { intros H w Hw. specialize (H w Hw). by destruct (with_layer state' body w) as [w' [e|a]]. }
  intros w (layer & ftr & Hl & Hi & HQ). unfold with_layer.
  destruct (shapefiles w !! state') as [layer0|] eqn:Hl0; [|by exists layer, ftr].
  destruct (update_layer body layer0) as [layer' e] eqn:Hu. simpl.
  destruct (decide (state' = state)) as [->|Hne].
  - simplify_eq. exists layer'. unfold feature_at. simpl. rewrite lookup_insert_eq.
    destruct (update_layer_lookup body layer i ftr Hi) as [Hsame|(g & Hg & Hi')];
      rewrite Hu in *; simpl in *; eauto 6.
  - exists layer, ftr. simpl. by rewrite lookup_insert_ne.
Qed.

Lemma year_values_other_year (features : Stats) (year year' : Z) (overwrite : bool)
    (crop src : option PyVal) (ftr g : Feature) :
  year' ≠ year →
  year_values year crop src ftr →
  write_feature features year' overwrite ftr = inr (Some g) →
  year_values year crop src g.
Proof.
  intros Hne [Hc Hs] Hw. split.
  - rewrite <- Hc. apply (write_feature_frame _ _ _ _ _ _ Hw); [|by auto with fields].
    intros H%crop_type_field_inj. done.
  - rewrite <- Hs. apply (write_feature_frame _ _ _ _ _ _ Hw).
    + apply not_eq_sym. auto with fields.
    + intros H%crop_src_field_inj. done.
Qed.

(** One year of the composite pass keeps a positive crop type of [year],
    and its source. *)
Lemma composite_year_keeps (i : nat) (year year' z : Z) (src : option PyVal) :
  0 < z →
  invariant (feature_at "CA" i (year_values year (Some (PInt z)) src)) (composite_year year').
Proof.
  intros Hz. unfold composite_year.
  destruct (year' <? 2008); [apply invariant_ret|].
  apply invariant_bind; [apply feature_at_fetch_stats|]. intros _.
  apply invariant_bind; [apply invariant_stats_isfile|]. intros present.
  apply invariant_if; [apply invariant_ret|].
  apply invariant_bind; [apply invariant_read_stats|]. intros update_features.
  apply invariant_bind; [apply invariant_lift|]. intros _.
  apply feature_at_with_layer. intros _ ftr g HQ Hw.
  destruct (decide (year' = year)) as [->|Hne].
  - destruct HQ as [Hc _].
    by destruct (write_feature_positive update_features year ftr z Hc Hz g).
  - by apply (year_values_other_year update_features year year' false _ _ ftr g).
Qed.

(** C9 (as amended).  The composite pass calls the write step with
    [overwrite] off whatever flag [main] was given ([composite_year] does
    not take the flag).  A feature of the California layer whose crop type
    of [year] is greater than zero when the pass runs has the same crop
    type and source of [year] after the pass, over all its years. *)
Theorem composite_keeps_positive (years : list Z) (w : World) (layer : Layer)
    (i : nat) (ftr : Feature) (year z : Z) :
  shapefiles w !! "CA" = Some layer →
  layer !! i = Some ftr →
  ftr !! crop_type_field year = Some (PInt z) →
  0 < z →
  feature_at "CA" i
    (year_values year (Some (PInt z)) (ftr !! crop_src_field year))
    (for_each years composite_year w).1.
Proof.
  intros Hl Hi Hc Hz.
  apply (invariant_final _ (for_each years composite_year)).
  - apply invariant_for_each. intros year' _. by apply composite_year_keeps.
  - exists layer, ftr. by repeat split.
Qed.

(** ** The low-coverage filter *)

Lemma coverage_ok_not_low (values : Rec) :
  coverage_ok values = inr true → ¬ low_coverage values.
Proof.
  unfold coverage_ok, getitem.
  intros Hok (count & total & qc & qt & Hc & Ht & Hqc & Hqt & Hlow).
  rewrite Ht in Hok. res_simpl.
  assert (Hpos : py_gt0 total = inr true ∧ 0 < Qnum qt).
  { destruct total as [z|q| | |]; simpl in Hqt; try discriminate Hqt;
      injection Hqt as <-; simpl in Hok |- *.
    - destruct (0 <? z) eqn:Hz; [|done]. split; [done|]. by apply Z.ltb_lt.
    - destruct (0 <? Qnum q) eqn:Hz; [|done]. split; [done|]. by apply Z.ltb_lt. }
  destruct Hpos as [Hgt Hnum]. rewrite Hgt in Hok. rewrite Hc in Hok. res_simpl.
  unfold py_truediv in Hok. rewrite Hqc, Hqt in Hok. res_simpl.
  destruct (Z.eqb_spec (Qnum qt) 0) as [H0|_]; [lia|].
  injection Hok as Hge. apply Qle_bool_iff in Hge.
  destruct Hlow as [Hzero|Hlt].
  - unfold Qeq in Hzero. simpl in Hzero. lia.
  - by apply Qlt_not_le in Hlt.
Qed.

Lemma drop_low_coverage_fold (rows : list (string * Rec)) (kept : Stats)
    (k : string) (v : Rec) :
  foldr
    (λ (row : string * Rec) (rest : res Stats),
       ok ← coverage_ok row.2;
       kept ← rest;
       mret (if ok : bool then <[row.1 := row.2]> kept else kept))
    (mret ∅) rows = inr kept →
  kept !! k = Some v →
  (k, v) ∈ rows ∧ coverage_ok v = inr true.
Proof.
  revert kept. induction rows as [|[k0 v0] rows IH]; intros kept Hf Hk; simpl in *.
  - res_simpl. by simplify_eq.
  - res_simpl.
    destruct (coverage_ok v0) as [e|ok] eqn:Hok; [done|].
    destruct (foldr _ _ rows) as [e|kept0] eqn:Hrows; [done|].
    injection Hf as <-. destruct ok.
    + destruct (decide (k0 = k)) as [->|Hne].
      * rewrite lookup_insert_eq in Hk. simplify_eq. split; [by left|done].
      * rewrite lookup_insert_ne in Hk by done.
        destruct (IH kept0 eq_refl Hk). split; [by right|done].
    + destruct (IH kept0 eq_refl Hk). split; [by right|done].
Qed.

(** What the filter keeps is a row of the table that passes the test. *)
Lemma drop_low_coverage_kept (table kept : Stats) (k : string) (v : Rec) :
  drop_low_coverage table = inr kept →
  kept !! k = Some v →
  table !! k = Some v ∧ coverage_ok v = inr true.
Proof.
  intros Hd Hk. destruct (drop_low_coverage_fold _ _ _ _ Hd Hk) as [Hin Hok].
  split; [|done]. by apply elem_of_map_to_list in Hin.
Qed.

Lemma write_feature_no_row (features : Stats) (year : Z) (overwrite : bool)
    (ftr : Feature) (id : string) :
  ftr !! "OPENET_ID" = Some (PStr id) →
  features !! id = None →
  ∀ g, write_feature features year overwrite ftr ≠ inr (Some g).
Proof.
  intros Hid Hnone g Hw.
  apply write_feature_written in Hw as (oid & ct & values & b & Hid' & _ & Hv & _).
  simplify_eq. simpl in Hv. congruence.
Qed.


(** ** Names of the result files *)

Lemma lower_app (a b : string) : lower (a +:+ b) = lower a +:+ lower b.
Proof.
  induction a as [|c a IH]; [done|].
  change (lower (String c (a +:+ b)) = String (lower_ascii c) (lower a +:+ lower b)).
  simpl. by rewrite IH.
Qed.

Lemma lower_pretty_N_go (x : N) (s : string) :
  lower (pretty_N_go x s) = pretty_N_go x (lower s).
Proof.
  revert s. induction (N.lt_wf_0 x) as [x _ IH]; intros s.
  assert (x = 0 ∨ 0 < x)%N as [->|?] by lia.
  - by rewrite !pretty_N_go_0.
  - rewrite (pretty_N_go_step x s), (pretty_N_go_step x (lower s)) by done.
    rewrite IH by (by apply N.div_lt).
    f_equal. simpl. f_equal.
    assert (x `mod` 10 < 10)%N as Hd by (apply N.mod_lt; lia).
    generalize dependent (x `mod` 10)%N. intros d Hd.
    assert (d = 0 ∨ d = 1 ∨ d = 2 ∨ d = 3 ∨ d = 4 ∨ d = 5 ∨ d = 6
          ∨ d = 7 ∨ d = 8 ∨ d = 9)%N as Hcases by lia.
    repeat (destruct Hcases as [->|Hcases]; [reflexivity|]). rewrite Hcases. reflexivity.
Qed.

Lemma lower_pretty (year : Z) : lower (pretty year) = pretty year.
Proof.
  assert (HN : ∀ x : N, lower (pretty x) = pretty x).
  { intros x. unfold pretty, pretty_N. case_decide; [done|]. apply lower_pretty_N_go. }
  destruct year as [|p|p]; [done|apply HN|].
  unfold pretty, pretty_Z. rewrite lower_app. f_equal. apply HN.
Qed.

Lemma string_app_length (a b : string) :
  String.length (a +:+ b) = (String.length a + String.length b)%nat.
Proof.
  induction a as [|c a IH]; [done|].
  change (String.length (String c (a +:+ b)) = S (String.length a + String.length b)).
  simpl. by rewrite IH.
Qed.

Lemma string_app_inv_tail (a b s : string) : a +:+ s = b +:+ s → a = b.
Proof.
  revert b. induction a as [|c a IH]; intros [|d b] H.
  - done.
  - apply (f_equal String.length) in H. simpl in H.
    rewrite ?string_app_length in H. simpl in H. lia.
  - apply (f_equal String.length) in H. simpl in H.
    rewrite ?string_app_length in H. simpl in H. lia.
  - injection H as -> H. f_equal. by apply IH.
Qed.

(** The file name of a year tells the year. *)
Lemma stats_name_inj (prefix : string) (year year' : Z) :
  lower (prefix +:+ pretty year +:+ ".csv") = lower (prefix +:+ pretty year' +:+ ".csv") →
  year = year'.
Proof.
  rewrite !lower_app, !lower_pretty. intros H.
  apply (inj (String.app (lower prefix))) in H.
  apply string_app_inv_tail in H. by apply (inj pretty).
Qed.

(** ** Clearing *)

Lemma clear_feature_cleared (years : list Z) (ftr : Feature) :
  (∀ y, y ∈ years → has_year_fields ftr y) →
  ∃ g, clear_feature years ftr = inr (Some g) ∧
       (∀ name, is_Some (g !! name) ↔ is_Some (ftr !! name)) ∧
       (∀ y, y ∈ years → cleared y g).
Proof.
  unfold clear_feature.
  induction years as [|y years IH] using rev_ind; intros Hf.
  - exists ftr. split; [done|]. split; [done|]. intros y Hy. by apply elem_of_nil in Hy.
  - destruct IH as (g & Hg & Hdom & Hcl).
    { intros y' Hy'. apply Hf. apply elem_of_app. by left. }
    rewrite foldl_app. simpl.
    destruct (foldl _ _ years) as [e|g0] eqn:Hfold; [done|].
    res_simpl. simplify_eq.
    destruct (Hf y) as [Hc Hs]; [apply elem_of_app; right; by left|].
    apply Hdom in Hc as [c Hc]. apply Hdom in Hs as [s Hs].
    unfold SetField. rewrite Hc. res_simpl.
    rewrite lookup_insert_ne by auto with fields. rewrite Hs.
    eexists; split; [done|]. split.
    + intros name. rewrite <- Hdom.
      destruct (decide (crop_src_field y = name)) as [<-|?];
        [rewrite lookup_insert_eq, Hs; by split|rewrite lookup_insert_ne by done].
      destruct (decide (crop_type_field y = name)) as [<-|?];
        [rewrite lookup_insert_eq, Hc; by split|by rewrite lookup_insert_ne by done].
    + intros y' Hy'. split.
      * rewrite lookup_insert_ne by (apply not_eq_sym; auto with fields).
        destruct (decide (crop_type_field y = crop_type_field y')) as [<-|?];
          [by rewrite lookup_insert_eq|rewrite lookup_insert_ne by done].
        apply elem_of_app in Hy' as [Hy'|Hy']; [by apply Hcl|].
        apply list_elem_of_singleton in Hy' as ->. done.
      * destruct (decide (crop_src_field y = crop_src_field y')) as [<-|?];
          [by rewrite lookup_insert_eq|rewrite lookup_insert_ne by done].
        rewrite lookup_insert_ne by auto with fields.
        apply elem_of_app in Hy' as [Hy'|Hy']; [by apply Hcl|].
        apply list_elem_of_singleton in Hy' as ->. done.
Qed.

Lemma update_layer_all (body : Feature → res (option Feature)) (Q : Feature → Prop)
    (layer : Layer) :
  (∀ ftr, ftr ∈ layer → ∃ g, body ftr = inr (Some g) ∧ Q g) →
  (update_layer body layer).2 = None ∧
  length (update_layer body layer).1 = length layer ∧
  ∀ g, g ∈ (update_layer body layer).1 → Q g.
Proof.
  induction layer as [|ftr rest IH]; intros Hbody; simpl.
  - split; [done|]. split; [done|]. intros g Hg. by apply elem_of_nil in Hg.
  - destruct (Hbody ftr) as (g & Hg & HQ); [by left|]. rewrite Hg.
    destruct IH as (He & Hlen & Hall); [intros f Hf; apply Hbody; by right|].
    destruct (update_layer body rest) as [rest' e']. simpl in *.
    split; [done|]. split; [by rewrite Hlen|].
    intros g' [->|Hg']%elem_of_cons; [done|by apply Hall].
Qed.

(** Clearing a dataset that has the fields of the selected years goes
    through and leaves every feature cleared for every selected year. *)
Lemma clear_values_spec (state : string) (years : list Z) (w : World) (layer : Layer) :
  shapefiles w !! state = Some layer →
  (∀ ftr y, ftr ∈ layer → y ∈ years → has_year_fields ftr y) →
  ∃ layer1,
    clear_values state years w = (set_shapefile state layer1 w, inr tt) ∧
    length layer1 = length layer ∧
    ∀ g y, g ∈ layer1 → y ∈ years → cleared y g.
Proof.
  intros Hl Hf. unfold clear_values, with_layer. rewrite Hl.
  destruct (update_layer_all (clear_feature years) (λ g, ∀ y, y ∈ years → cleared y g) layer)
    as (He & Hlen & Hall).
  { intros ftr Hftr. destruct (clear_feature_cleared years ftr) as (g & Hg & _ & Hcl); eauto. }
  destruct (update_layer (clear_feature years) layer) as [layer1 e]. simpl in *. subst e.
  exists layer1. eauto.
Qed.

(** ** Invariants of the passes *)

Lemma invariant_and {A} (P1 P2 : World → Prop) (m : M A) :
  invariant P1 m → invariant P2 m → invariant (λ w, P1 w ∧ P2 w) m.
Proof.
  intros H1 H2 w [Hw1 Hw2]. specialize (H1 w Hw1). specialize (H2 w Hw2).
  by destruct (m w) as [w' [e|a]].
Qed.

Lemma files_with_layer (ok : string → Prop) (F : World → Prop) (state : string)
    (body : Feature → res (option Feature)) :
  files_pred ok F → invariant F (with_layer state body).
Proof.
  intros [Hshp _] w Hw. unfold with_layer.
  destruct (shapefiles w !! state); [|done].
  destruct (update_layer body l) as [layer' [e|]]; by apply Hshp.
Qed.

Lemma files_fetch_stats (ok : string → Prop) (F : World → Prop) (name : string) (force : bool) :
  files_pred ok F → ok name → invariant F (fetch_stats name force).
Proof. intros [_ Hst] Hok. apply fetch_stats_spec. intros w table Hw _. by apply Hst. Qed.

(** The write step of another year keeps the values of [year]. *)
Lemma write_features_other_year (state state' : string) (i : nat) (year year' : Z)
    (crop src : option PyVal) (features : Stats) (overwrite : bool) :
  year' ≠ year →
  invariant (feature_at state i (year_values year crop src))
    (write_features state' features year' overwrite).
Proof.
  intros Hne. apply feature_at_with_layer. intros _ ftr g HQ Hw.
  by apply (year_values_other_year features year year' overwrite _ _ ftr g).
Qed.

Section passes.
Context (state : string) (i : nat) (year : Z) (crop src : option PyVal).
Context (ok : string → Prop) (F : World → Prop) (HF : files_pred ok F).

Local Abbreviation kept := (kept_with state i year crop src F).

(** One year of each pass, for another year than [year]. *)
Lemma cdl_year_other (state' : string) (overwrite_flag : bool) (year' : Z) :
  year' ≠ year →
  ok (lower (state' +:+ "_cdl_" +:+ pretty year' +:+ ".csv")) →
  invariant kept (cdl_year state' overwrite_flag year').
Proof.
  intros Hne Hname. unfold cdl_year.
  apply invariant_bind.
  { apply invariant_and; [apply feature_at_fetch_stats|by apply (files_fetch_stats ok)]. }
  intros _. apply invariant_bind; [apply invariant_stats_isfile|]. intros present.
  apply invariant_if; [apply invariant_ret|].
  apply invariant_bind; [apply invariant_read_stats|]. intros update_features.
  apply invariant_bind; [apply invariant_lift|]. intros _.
  apply invariant_and; [by apply write_features_other_year|by apply (files_with_layer ok)].
Qed.

Lemma cadwr_year_other (overwrite_flag : bool) (year' : Z) :
  (2009 ≤ year' → year' ≠ year) →
  ok (lower ("CA" +:+ "_cadwr_" +:+ pretty year' +:+ ".csv")) →
  invariant kept (cadwr_year overwrite_flag year').
Proof.
  intros Hne Hname. unfold cadwr_year.
  destruct (Z.ltb_spec year' 2009) as [|Hge]; [apply invariant_ret|].
  apply invariant_bind.
  { apply invariant_and; [apply feature_at_fetch_stats|by apply (files_fetch_stats ok)]. }
  intros _. apply invariant_bind; [apply invariant_stats_isfile|]. intros present.
  apply invariant_if; [apply invariant_ret|].
  apply invariant_bind; [apply invariant_read_stats|]. intros update_features.
  apply invariant_bind; [apply invariant_lift|]. intros kept.
  apply invariant_and; [apply write_features_other_year; auto|by apply (files_with_layer ok)].
Qed.

Lemma composite_year_other (year' : Z) :
  (2008 ≤ year' → year' ≠ year) →
  ok (lower ("CA" +:+ "_composite_" +:+ pretty year' +:+ ".csv")) →
  invariant kept (composite_year year').
Proof.
  intros Hne Hname. unfold composite_year.
  destruct (Z.ltb_spec year' 2008) as [|Hge]; [apply invariant_ret|].
  apply invariant_bind.
  { apply invariant_and; [apply feature_at_fetch_stats|by apply (files_fetch_stats ok)]. }
  intros _. apply invariant_bind; [apply invariant_stats_isfile|]. intros present.
  apply invariant_if; [apply invariant_ret|].
  apply invariant_bind; [apply invariant_read_stats|]. intros update_features.
  apply invariant_bind; [apply invariant_lift|]. intros _.
  apply invariant_and; [apply write_features_other_year; auto|by apply (files_with_layer ok)].
Qed.

(** A pass that must download a file the bucket does not hold raises,
    and leaves the world as it was. *)
Lemma cdl_year_missing (year' : Z) :
  (∀ w, F w → bucket w !! (bucket_folder +:+ "/" +:+
                              lower (state +:+ "_cdl_" +:+ pretty year' +:+ ".csv")) = None) →
  hoare kept (cdl_year state true year') (λ _ _, False) kept.
Proof.
  intros Hb. unfold cdl_year. eapply hoare_bind.
  - apply fetch_stats_missing. intros w [_ Hw]. by apply Hb.
  - by intros [] w [].
Qed.

Lemma cadwr_year_missing (year' : Z) :
  2009 ≤ year' →
  (∀ w, F w → bucket w !! (bucket_folder +:+ "/" +:+
                              lower ("CA" +:+ "_cadwr_" +:+ pretty year' +:+ ".csv")) = None) →
  hoare kept (cadwr_year true year') (λ _ _, False) kept.
Proof.
  intros Hge Hb. unfold cadwr_year.
  destruct (Z.ltb_spec year' 2009) as [|_]; [lia|].
  eapply hoare_bind.
  - apply fetch_stats_missing. intros w [_ Hw]. by apply Hb.
  - by intros [] w [].
Qed.

Lemma composite_year_missing (year' : Z) :
  2008 ≤ year' →
  (∀ w, F w →
     stats_ws w !! lower ("CA" +:+ "_composite_" +:+ pretty year' +:+ ".csv") = None ∧
     bucket w !! (bucket_folder +:+ "/" +:+
                    lower ("CA" +:+ "_composite_" +:+ pretty year' +:+ ".csv")) = None) →
  hoare kept (composite_year year') (λ _ _, False) kept.
Proof.
  intros Hge Hb. unfold composite_year.
  destruct (Z.ltb_spec year' 2008) as [|_]; [lia|].
  eapply hoare_bind.
  - instantiate (1 := λ _ _, False).
    intros w Hw. destruct (Hb w (proj2 Hw)) as [Hs Hbk].
    unfold fetch_stats, stats_isfile, download, mbind, M_bind.
    rewrite Hs. rewrite bool_decide_eq_false_2 by (by intros [? ?]).
    cbv beta iota delta [negb orb]. by rewrite Hbk.
  - by intros [] w [].
Qed.
End passes.

Lemma raising_invariant {A} (P : World → Prop) (m : M A) :
  hoare P m (λ _ _, False) P → invariant P m.
Proof. intros H. eapply hoare_weaken; [apply H|done|by intros ? ? []|done]. Qed.

Lemma hoare_final {A} (P E : World → Prop) (m : M A) (w : World) :
  hoare P m (λ _, E) E → P w → E (m w).1.
Proof. intros Hm Hw. specialize (Hm w Hw). by destruct (m w) as [w' [e|a]]. Qed.


(** ** Instances and a counterexample *)


Lemma composite_keeps_positive_witness :
  let ftr : Feature :=
    {[ "OPENET_ID" := PStr "CA_1"; "CROP_2020" := PInt 36;
       "CSRC_2020" := PStr "projects/openet/assets/crop_type/california/2020" ]} in
  let row : Rec :=
    {[ "CROP_2020" := PInt 5;
       "CSRC_2020" := PStr "CA2020 CDL2020 composite - remapped annual crops" ]} in
  let w := mkWorld {[ "CA" := [ftr] ]}
                   {[ "ca_composite_2020.csv" := {[ "CA_1" := row ]} ]} ∅ in
  feature_at "CA" 0
    (year_values 2020 (Some (PInt 36)) (ftr !! crop_src_field 2020))
    (for_each [2020] composite_year w).1.
Proof.
  intros ftr row w.
  apply (composite_keeps_positive [2020] w [ftr] 0 ftr 2020 36).
  - reflexivity.
  - reflexivity.
  - reflexivity.
  - lia.
Defined.

(** C9, as stated, fails: a crop type that is not zero but negative is
    replaced by the composite pass. *)
Lemma composite_overwrites_negative :
  ¬ (∀ (years : list Z) (w : World) (layer : Layer) (i : nat) (ftr : Feature)
       (year z : Z),
       shapefiles w !! "CA" = Some layer →
       layer !! i = Some ftr →
       ftr !! crop_type_field year = Some (PInt z) →
       z ≠ 0 →
       feature_at "CA" i
         (year_values year (Some (PInt z)) (ftr !! crop_src_field year))
         (for_each years composite_year w).1).
Proof.
  intros H.
  set (ftr := {[ "OPENET_ID" := PStr "CA_1"; "CROP_2020" := PInt (-1);
                 "CSRC_2020" := PStr "" ]} : Feature).
  set (row := {[ "CROP_2020" := PInt 5;
                 "CSRC_2020" := PStr "CA2020 CDL2020 composite - remapped annual crops" ]} : Rec).
  set (w := mkWorld {[ "CA" := [ftr] ]}
                    {[ "ca_composite_2020.csv" := {[ "CA_1" := row ]} ]} ∅).
  destruct (H [2020] w [ftr] 0%nat ftr 2020 (-1) eq_refl eq_refl eq_refl ltac:(lia))
    as (layer & g & Hl & Hi & Hc & _).
  vm_compute in Hl. injection Hl as <-.
  vm_compute in Hi. injection Hi as <-.
  vm_compute in Hc. discriminate Hc.
Qed.


End UpdateFacts.

(** ** Coverage Table *)

Lemma fst_pair_fmap {A B} (v : B) (l : list A) : ((λ x, (x, v)) <$> l).*1 = l.
Proof. induction l as [|x l IH]; [done|]. simpl. f_equal. exact IH. Qed.

Lemma cdl_year_states_full (states : list string) (year : Z) :
  cdl_year_min ≤ year ≤ cdl_year_max →
  cdl_year_states states !! year = Some states.
Proof.
  unfold cdl_year_min, cdl_year_max. intros Hy. unfold cdl_year_states.
  cbv zeta. rewrite !lookup_insert_ne by lia.
  apply elem_of_list_to_map_1.
  - rewrite fst_pair_fmap. apply NoDup_seqZ.
  - apply list_elem_of_fmap. exists year. split; [done|].
    apply elem_of_seqZ. unfold cdl_year_min, cdl_year_max. lia.
Qed.

Lemma cdl_year_states_outside (states : list string) (year : Z) :
  year < year_min ∨ year_max < year →
  cdl_year_states states !! year = None.
Proof.
  unfold year_min, year_max. intros Hy. unfold cdl_year_states.
  cbv zeta. rewrite !lookup_insert_ne by lia.
  apply not_elem_of_list_to_map_1.
  rewrite fst_pair_fmap, elem_of_seqZ. unfold cdl_year_min, cdl_year_max. lia.
Qed.

(** The listed states of an override year do not depend on the configured
    states. *)
Lemma cdl_year_states_override (states : list string) (year : Z) :
  year_min ≤ year < cdl_year_min →
  cdl_year_states states !! year = cdl_year_states [] !! year.
Proof.
  unfold year_min, cdl_year_min. intros Hy.
  assert (year = 1997 ∨ year = 1998 ∨ year = 1999 ∨ year = 2000 ∨ year = 2001 ∨
          year = 2002 ∨ year = 2003 ∨ year = 2004 ∨ year = 2005 ∨ year = 2006 ∨
          year = 2007) as Hcases by lia.
  repeat (destruct Hcases as [->|Hcases]; [vm_compute; reflexivity|]).
  rewrite Hcases. vm_compute. reflexivity.
Qed.

(** One year added for the states of its list. *)
Lemma add_year_fold (year : Z) (sts : list string) (table : gmap string (list Z))
    (state : string) :
  ∃ n : nat,
    foldl (add_year year) table sts !! state
    = (λ l : list Z, (l ++ replicate n year)%list) <$> table !! state ∧
    (n ≠ 0%nat ↔ state ∈ sts).
Proof.
  revert table. induction sts as [|s sts IH]; intros table; simpl.
  - exists 0%nat. split.
    + destruct (table !! state); simpl; [by rewrite app_nil_r|done].
    + split; [done|]. intros H. by apply elem_of_nil in H.
  - destruct (IH (add_year year table s)) as (n & Hn & Hin).
    destruct (decide (s = state)) as [->|Hne].
    + exists (S n). rewrite Hn. unfold add_year at 1. rewrite lookup_alter_eq. split.
      * destruct (table !! state); simpl; [|done].
        by rewrite <- app_assoc.
      * split; [intros _; by left|done].
    + exists n. rewrite Hn. unfold add_year at 1. rewrite lookup_alter_ne by done.
      split; [done|].
      rewrite Hin. split; [by right|]. intros [?|?]%elem_of_cons; [by subst|done].
Qed.

(** The years available for a state: a state has an entry when it is
    configured, and its years are the selected years whose list holds it. *)
Lemma cdl_state_years_spec (states : list string) (years : list Z) (state : string) :
  (is_Some (cdl_state_years states years !! state) ↔ state ∈ states) ∧
  ∀ l, cdl_state_years states years !! state = Some l →
       ∀ year, year ∈ l ↔ year ∈ years ∧ covered states state year = true.
Proof.
  unfold cdl_state_years.
  set (step := λ (table : gmap string (list Z)) (year : Z),
         match cdl_year_states states !! year with
         | Some sts => foldl (add_year year) table sts
         | None => table
         end).
  set (init := list_to_map ((λ state0 : string, (state0, @nil Z)) <$> states) : gmap string (list Z)).
  assert (Hinit : (is_Some (init !! state) ↔ state ∈ states) ∧
                  ∀ l, init !! state = Some l → l = []).
  { split.
    - unfold init. split.
      + intros [l Hl]. apply elem_of_list_to_map_2 in Hl.
        apply list_elem_of_fmap in Hl as (s & [= -> _] & Hs). done.
      + intros Hs. destruct (list_to_map _ !! state) as [l|] eqn:Hl; [by eexists|].
        apply not_elem_of_list_to_map_2 in Hl. destruct Hl.
        rewrite fst_pair_fmap. done.
    - intros l Hl. unfold init in Hl. apply elem_of_list_to_map_2 in Hl.
      by apply list_elem_of_fmap in Hl as (s & [= _ ->] & Hs). }
  induction years as [|y years IH] using rev_ind.
  - simpl. destruct Hinit as [Hdom Hnil]. split; [done|].
    intros l Hl year. rewrite (Hnil l Hl). split; [by intros ?%elem_of_nil|].
    by intros [?%elem_of_nil _].
  - rewrite foldl_app. simpl. destruct IH as [IHdom IHl].
    unfold step at 1 3. unfold covered in *.
    destruct (cdl_year_states states !! y) as [sts|] eqn:Hy.
    + destruct (add_year_fold y sts (foldl step init years) state) as (n & Hn & Hin).
      rewrite Hn. split; [rewrite <- IHdom; apply fmap_is_Some|].
      intros l' Hl' year. apply fmap_Some in Hl' as (l & Hl & ->).
      rewrite !elem_of_app, (IHl l Hl year), list_elem_of_singleton.
      split.
      * intros [[? ?]|Hrep]; [by auto|].
        apply elem_of_replicate in Hrep as [-> Hn0]. rewrite Hy.
        split; [by right|]. apply bool_decide_eq_true. by apply Hin.
      * intros [[?| ->] Hc]; [left; by auto|].
        rewrite Hy in Hc. apply bool_decide_eq_true in Hc. right.
        apply elem_of_replicate. split; [done|]. by apply Hin.
    + split; [done|]. intros l Hl year.
      rewrite elem_of_app, (IHl l Hl year), list_elem_of_singleton.
      split; [intros [? ?]; by auto|].
      intros [[?| ->] Hc]; [by auto|]. by rewrite Hy in Hc.
Qed.

(** C6.  The Coverage Table: from 2008 through 2024 exactly the
    configured states are covered; in each of the override years 1997 to
    2007 exactly the listed states are covered, whatever the configured
    states; a year outside 1997 to 2024 is not a key and no state is
    covered; and the years the scripts loop over for a configured state are
    the selected years the table covers for it. *)
Theorem coverage_table (states : list string) :
  (∀ year state, cdl_year_min ≤ year ≤ cdl_year_max →
     (covered states state year = true ↔ state ∈ states)) ∧
  (∀ state,
     (covered states state 2007 = true ↔
        state ∈ ["AR"; "IA"; "ID"; "IL"; "IN"; "KS"; "LA"; "MI"; "MN"; "MO"; "MS";
                 "MT"; "ND"; "NE"; "OH"; "OK"; "OR"; "SD"; "WA"; "WI"]) ∧
     (covered states state 2006 = true ↔
        state ∈ ["AR"; "IA"; "IL"; "IN"; "KS"; "LA"; "MN"; "MO"; "MS"; "ND"; "NE";
                 "OH"; "OK"; "SD"; "WI"]) ∧
     (covered states state 2005 = true ↔
        state ∈ ["AR"; "IA"; "IL"; "IN"; "MO"; "MS"; "ND"; "NE"; "WI"]) ∧
     (covered states state 2004 = true ↔
        state ∈ ["AR"; "FL"; "IA"; "IL"; "IN"; "MO"; "MS"; "ND"; "NE"; "WI"]) ∧
     (covered states state 2003 = true ↔
        state ∈ ["AR"; "IA"; "IL"; "IN"; "MO"; "MS"; "ND"; "NE"; "WI"]) ∧
     (covered states state 2002 = true ↔
        state ∈ ["AR"; "IA"; "IL"; "IN"; "MO"; "MS"; "ND"; "NE"; "NC"; "VA"; "WV";
                 "MD"; "DE"; "PA"; "NJ"; "NY"; "CT"; "RI"]) ∧
     (covered states state 2001 = true ↔
        state ∈ ["AR"; "IA"; "IL"; "IN"; "MO"; "MS"; "ND"; "NE"]) ∧
     (covered states state 2000 = true ↔
        state ∈ ["AR"; "IA"; "IL"; "IN"; "MS"; "ND"]) ∧
     (covered states state 1999 = true ↔ state ∈ ["AR"; "IL"; "MS"; "ND"]) ∧
     (covered states state 1998 = true ↔ state ∈ ["ND"]) ∧
     (covered states state 1997 = true ↔ state ∈ ["ND"])) ∧
  (∀ year state, year < year_min ∨ year_max < year →
     cdl_year_states states !! year = None ∧ covered states state year = false) ∧
  (∀ years state l, cdl_state_years states years !! state = Some l →
     state ∈ states ∧
     ∀ year, year ∈ l ↔ year ∈ years ∧ covered states state year = true).
Proof.
  split; [|split; [|split]].
  - intros year state Hy. unfold covered. rewrite cdl_year_states_full by done.
    apply bool_decide_eq_true.
  - intros state.
    repeat (split; [override_year|]). override_year.
  - intros year state Hy. unfold covered. by rewrite cdl_year_states_outside.
  - intros years state l Hl.
    destruct (cdl_state_years_spec states years state) as [Hdom Hyears].
    split; [apply Hdom; by eexists|by apply Hyears].
Qed.

(** ** Year Enumerator *)

Lemma year_range_bounds (year : Z) : year ∈ year_range → year_min ≤ year ≤ year_max.
Proof. unfold year_range. rewrite elem_of_seqZ. lia. Qed.

Lemma years_in_range_bounds (years : list (list Z)) (year : Z) :
  year ∈ years_in_range years → year_min ≤ year ≤ year_max.
Proof.
  unfold years_in_range. rewrite elem_of_remove_dups, list_elem_of_filter.
  unfold in_year_range. intros [Hr _]. apply andb_prop in Hr as [H1 H2].
  apply Z.leb_le in H1, H2. lia.
Qed.

(** Both scripts only ever loop over years from [year_min] to
    [year_max]: a year beyond the newest CDL year is dropped by the
    selection. *)
Lemma enumerate_years_bounds (years : list (list Z)) (year : Z) :
  (year ∈ UpdateScript.enumerate_years years → year_min ≤ year ≤ year_max) ∧
  (year ∈ ExportScript.enumerate_years years → year_min ≤ year ≤ year_max).
Proof.
  unfold UpdateScript.enumerate_years, ExportScript.enumerate_years. split.
  - case_bool_decide; [apply year_range_bounds|].
    rewrite merge_sort_Permutation. apply years_in_range_bounds.
  - rewrite elem_of_reverse, merge_sort_Permutation.
    case_bool_decide; [apply year_range_bounds|apply years_in_range_bounds].
Qed.

Module ExportFacts.
Import ExportScript.

(** ** Remap Table *)

Lemma authored_fold_lookup (rows : list (Z * Z)) (table : gmap Z Z) (code : Z) :
  foldl (λ table row, <[row.1 := row.2]> table) table rows !! code = None ↔
  table !! code = None ∧ code ∉ rows.*1.
Proof.
  revert table. induction rows as [|[i o] rows IH]; intros table; simpl.
  - split; [intros H; split; [done|by intros ?%elem_of_nil]|by intros [? _]].
  - rewrite IH, not_elem_of_cons. destruct (decide (i = code)) as [->|Hne].
    + rewrite lookup_insert_eq. split; [by intros [? _]|by intros [_ [? _]]].
    + rewrite lookup_insert_ne by done. split; [intros [? ?]|intros [? [_ ?]]]; auto.
Qed.

Lemma authored_remap_None (remap_rows : list (Z * Z)) (code : Z) :
  authored_remap remap_rows !! code = None ↔ code ∉ remap_rows.*1.
Proof.
  unfold authored_remap. rewrite authored_fold_lookup, lookup_empty.
  rewrite (merge_sort_Permutation by_IN remap_rows).
  split; [by intros [_ ?]|by intros ?].
Qed.

Lemma default_fold_lookup (codes : list Z) (table : gmap Z Z) (code : Z) :
  foldl (λ table cdl_code, <[cdl_code := cdl_code]> table) table codes !! code
  = if decide (code ∈ codes) then Some code else table !! code.
Proof.
  revert table. induction codes as [|c codes IH]; intros table.
  - simpl. destruct (decide (code ∈ [])) as [Hin|_]; [by apply elem_of_nil in Hin|done].
  - change (foldl (λ table cdl_code, <[cdl_code := cdl_code]> table)
              (<[c := c]> table) codes !! code
            = if decide (code ∈ c :: codes) then Some code else table !! code).
    rewrite IH. destruct (decide (code ∈ codes)) as [Hin|Hnin].
    + by rewrite decide_True by (by right).
    + destruct (decide (c = code)) as [->|Hne].
      * rewrite decide_True by (by left). by rewrite lookup_insert_eq.
      * rewrite decide_False by (intros [?|?]%elem_of_cons; by subst).
        by rewrite lookup_insert_ne.
Qed.

Lemma ee_remap_list_to_map (l : list (Z * Z)) (v : Z) :
  ee_remap l.*1 l.*2 v = (list_to_map l : gmap Z Z) !! v.
Proof.
  induction l as [|[i o] l IH]; simpl; [done|].
  case_bool_decide as Hi.
  - subst. by rewrite lookup_insert_eq.
  - by rewrite lookup_insert_ne.
Qed.

(** C7.  After the default-filling the Remap Table maps every code from
    1 through 255: the code has one entry in the table (it occurs once
    among the remap inputs, and [remap] sends it to that entry's output);
    a code that is not in the authored CSV maps to itself, and an authored
    code keeps its authored output. *)
Theorem remap_table_total (remap_rows : list (Z * Z)) (code : Z) :
  1 ≤ code ≤ 255 →
  (∃ out, cdl_annual_remap remap_rows !! code = Some out ∧
          ee_remap (cdl_remap_in remap_rows) (cdl_remap_out remap_rows) code = Some out) ∧
  (code ∈ cdl_remap_in remap_rows ∧ NoDup (cdl_remap_in remap_rows)) ∧
  (code ∉ remap_rows.*1 → cdl_annual_remap remap_rows !! code = Some code) ∧
  (∀ out, authored_remap remap_rows !! code = Some out →
          cdl_annual_remap remap_rows !! code = Some out).
Proof.
  intros Hcode.
  assert (Hlookup : cdl_annual_remap remap_rows !! code
                    = match authored_remap remap_rows !! code with
                      | Some out => Some out
                      | None => Some code
                      end).
  { unfold cdl_annual_remap. cbv zeta. rewrite default_fold_lookup.
    destruct (authored_remap remap_rows !! code) as [out|] eqn:Ha.
    - rewrite decide_False; [done|].
      intros [Hnone _]%list_elem_of_filter. congruence.
    - rewrite decide_True; [done|].
      apply list_elem_of_filter. split; [done|]. apply elem_of_seqZ. lia. }
  assert (Hsome : ∃ out, cdl_annual_remap remap_rows !! code = Some out).
  { rewrite Hlookup. destruct (authored_remap remap_rows !! code); eauto. }
  destruct Hsome as [out Hout].
  split; [|split; [|split]].
  - exists out. split; [done|].
    unfold cdl_remap_in, cdl_remap_out. by rewrite ee_remap_list_to_map, list_to_map_to_list.
  - split; [|apply NoDup_fst_map_to_list].
    unfold cdl_remap_in. apply list_elem_of_fmap. exists (code, out).
    split; [done|]. by apply elem_of_map_to_list.
  - intros Hnot. apply authored_remap_None in Hnot. by rewrite Hlookup, Hnot.
  - intros o Ho. by rewrite Hlookup, Ho.
Qed.

Lemma remap_table_total_witness :
  let remap_rows := [(36, 36); (5, 5); (176, 176); (61, 61)] in
  (∃ out, cdl_annual_remap remap_rows !! 1 = Some out ∧
          ee_remap (cdl_remap_in remap_rows) (cdl_remap_out remap_rows) 1 = Some out) ∧
  (1 ∈ cdl_remap_in remap_rows ∧ NoDup (cdl_remap_in remap_rows)) ∧
  (1 ∉ remap_rows.*1 → cdl_annual_remap remap_rows !! 1 = Some 1) ∧
  (∀ out, authored_remap remap_rows !! 1 = Some out →
          cdl_annual_remap remap_rows !! 1 = Some out).
Proof.
  intros remap_rows. apply (remap_table_total remap_rows 1). lia.
Defined.

(** ** Source Selector *)



(** ** Reasoning on a run of the export script *)

Section run_rules.
Context (Φ : Action → Prop).

Lemma run_ret {A} (a : A) (Q : A → Prop) : Q a → run_spec (mret a : X A) Φ Q.
Proof. intros HQ. split; [constructor|by exists a]. Qed.

Lemma run_lift {A} (r : res A) (Q : A → Prop) (a : A) :
  r = inr a → Q a → run_spec (ExportScript.lift r) Φ Q.
Proof. intros -> HQ. split; [constructor|by exists a]. Qed.

Lemma run_emit (a : Action) (Q : unit → Prop) : Φ a → Q tt → run_spec (emit a) Φ Q.
Proof. intros Ha HQ. split; [by repeat constructor|by exists tt]. Qed.

Lemma run_bind {A B} (m : X A) (k : A → X B) (Q : A → Prop) (R : B → Prop) :
  run_spec m Φ Q → (∀ a, Q a → run_spec (k a) Φ R) → run_spec (m ≫= k) Φ R.
Proof.
  intros [Hlog (a & Ha & HQ)] Hk. destruct m as [log r]. simpl in *. subst r.
  destruct (Hk a HQ) as [Hlog' (b & Hb & HR)].
  unfold mbind, X_bind. destruct (k a) as [log' r']. simpl in *.
  split; [by apply Forall_app|by exists b].
Qed.

Lemma run_weaken {A} (m : X A) (Q Q' : A → Prop) :
  run_spec m Φ Q → (∀ a, Q a → Q' a) → run_spec m Φ Q'.
Proof. intros [Hlog (a & Ha & HQ)] HQQ. split; [done|]. exists a. auto. Qed.

Lemma run_for_each {A} (xs : list A) (body : A → X unit) :
  (∀ x, x ∈ xs → run_spec (body x) Φ (λ _, True)) →
  run_spec (for_each xs body) Φ (λ _, True).
Proof.
  induction xs as [|x rest IH]; intros Hbody; simpl.
  - by apply run_ret.
  - apply (run_bind _ _ (λ _, True)); [apply Hbody; by left|].
    intros _ _. apply IH. intros y Hy. apply Hbody. by right.
Qed.
End run_rules.

(** ** Remote Job Submitter *)

Lemma gate_spec (overwrite_flag : bool) (remote : Remote) (export_id : string) :
  run_spec (gate overwrite_flag remote export_id) (permitted overwrite_flag remote)
    (λ go, go = true → may_start overwrite_flag remote export_id).
Proof.
  unfold gate. destruct overwrite_flag.
  - apply (run_bind _ _ _ (λ _, True)); [|intros _ _; by apply run_ret].
    destruct (tasks remote !! export_id); [by apply run_emit|by apply run_ret].
  - case_bool_decide as Ht; [by apply run_ret|].
    case_bool_decide as Hf; [by apply run_ret|].
    apply run_ret. intros _. split; [|done].
    by apply eq_None_not_Some.
Qed.

Lemma start_spec (overwrite_flag : bool) (remote : Remote) (export_id : string)
    (imgs : list Image) (src : string) :
  may_start overwrite_flag remote export_id →
  run_spec (start export_id imgs src) (permitted overwrite_flag remote) (λ _, True).
Proof.
  intros Hmay. apply run_emit; [|done].
  destruct overwrite_flag; [done|]. destruct Hmay. by eexists.
Qed.

(** ** Source Selector *)

Lemma not_covered_ID_2005 (states : list string) : covered states "ID" 2005 = false.
Proof.
  unfold covered, cdl_year_states; cbv zeta.
  rewrite ?lookup_insert_ne by lia. rewrite lookup_insert_eq. reflexivity.
Qed.

Lemma not_covered_CA_2007 (states : list string) : covered states "CA" 2007 = false.
Proof.
  unfold covered, cdl_year_states; cbv zeta.
  rewrite ?lookup_insert_ne by lia. rewrite lookup_insert_eq. reflexivity.
Qed.

(** On a pair that passed the coverage gate the selection goes through. *)
Lemma select_cdl_covered (states : list string) (years l : list Z) (state : string)
    (year : Z) :
  cdl_state_years states years !! state = Some l → year ∈ l →
  ∃ src, select_cdl (cdl_state_years states years) state year = inr src.
Proof.
  intros Hl Hy.
  pose proof (proj2 (cdl_state_years_spec states years state) l Hl year) as Hspec.
  destruct (proj1 Hspec Hy) as [_ Hcov].
  unfold select_cdl. destruct (cdl_year_max <? year); [by eexists|].
  rewrite Hl.
  assert (Hfill : (if year <? cdl_year_min then mret (bool_decide (year ∉ l)) else mret false)
                  = (inr false : res bool)).
  { destruct (year <? cdl_year_min); [|done].
    by rewrite bool_decide_eq_false_2 by (by intros ?). }
  rewrite Hfill. unfold mbind, res_bind. clear Hfill Hspec Hy.
  destruct (Z.eqb_spec year 2005) as [->|_].
  { case_bool_decide as Hid; [|eexists; reflexivity].
    subst state. by rewrite not_covered_ID_2005 in Hcov. }
  destruct (Z.eqb_spec year 2007) as [->|_]; [|eexists; reflexivity].
  case_bool_decide as Hca; [|eexists; reflexivity].
  subst state. by rewrite not_covered_CA_2007 in Hcov.
Qed.

(** The California selections are defined on every year. *)
Lemma select_ca_total (year : Z) : ∃ sel, select_ca year = inr sel.
Proof.
  unfold select_ca.
  case_bool_decide as H1; [by eexists|].
  destruct (Z.ltb_spec 2023 year); [by eexists|].
  case_bool_decide as H2; [by eexists|].
  destruct (Z.ltb_spec year 2009); [by eexists|].
  case_bool_decide as H3; [by eexists|].
  exfalso. unfold ca_direct_years in H1.
  split_not_in H1. split_not_in H2. split_not_in H3. lia.
Qed.

Lemma select_ca_composite_total (year : Z) : is_Some (select_ca_composite year).
Proof.
  unfold select_ca_composite.
  case_bool_decide as H1; [by eexists|].
  destruct (Z.ltb_spec 2023 year); [by eexists|].
  case_bool_decide as H2; [by eexists|].
  destruct (Z.ltb_spec year 2014); [by eexists|].
  exfalso. unfold ca_direct_years in H1.
  split_not_in H1. split_not_in H2. lia.
Qed.

(** ** The loops of [main] *)

Section loops.
Context (states : list string) (years : list Z).
Context (overwrite_flag : bool) (remote : Remote).

Lemma cdl_pair_spec (state : string) (year : Z) :
  run_spec (cdl_pair (cdl_state_years states years) overwrite_flag remote state year)
    (permitted overwrite_flag remote) (λ _, True).
Proof.
  unfold cdl_pair.
  destruct (cdl_state_years states years !! state) as [l|] eqn:Hl; [|by apply run_ret].
  case_bool_decide as Hy; [by apply run_ret|].
  eapply run_bind; [apply gate_spec|]. intros [] Hgo; [|by apply run_ret].
  destruct (select_cdl_covered states years l state year Hl Hy) as [src Hsrc].
  eapply run_bind; [by apply (run_lift _ _ (λ _, True) src)|].
  intros src' _. apply start_spec. by apply Hgo.
Qed.

Lemma cdl_state_spec (state : string) :
  run_spec (cdl_state (cdl_state_years states years) years overwrite_flag remote state)
    (permitted overwrite_flag remote) (λ _, True).
Proof.
  unfold cdl_state. case_bool_decide; [by apply run_ret|].
  apply run_for_each. intros year _. apply cdl_pair_spec.
Qed.

Lemma landiq_year_spec (year : Z) :
  run_spec (landiq_year overwrite_flag remote year)
    (permitted overwrite_flag remote) (λ _, True).
Proof.
  unfold landiq_year. destruct (year <? 2009); [by apply run_ret|].
  eapply run_bind; [apply gate_spec|]. intros [] Hgo; [|by apply run_ret].
  destruct (select_ca_total year) as [sel Hsel].
  eapply run_bind; [by apply (run_lift _ _ (λ _, True) sel)|].
  intros [src|] _; [|by apply run_ret]. apply start_spec. by apply Hgo.
Qed.

Lemma composite_year_spec (year : Z) :
  run_spec (ExportScript.composite_year overwrite_flag remote year)
    (permitted overwrite_flag remote) (λ _, True).
Proof.
  unfold ExportScript.composite_year. destruct (year <? cdl_year_min); [by apply run_ret|].
  eapply run_bind; [apply gate_spec|]. intros [] Hgo; [|by apply run_ret].
  destruct (select_ca_composite_total year) as [ca_img ->].
  destruct (year <? 2009); apply start_spec; by apply Hgo.
Qed.
End loops.

Lemma main_spec (states : list string) (years : list (list Z)) (overwrite_flag : bool)
    (remote : Remote) :
  run_spec (main states years overwrite_flag remote)
    (permitted overwrite_flag remote) (λ _, True).
Proof.
  unfold main. cbv zeta.
  apply (run_bind _ _ _ (λ _, True)).
  { apply run_for_each. intros state _. apply cdl_state_spec. }
  intros _ _. apply (run_bind _ _ _ (λ _, True)).
  { case_bool_decide; [|by apply run_ret].
    apply run_for_each. intros year _. apply landiq_year_spec. }
  intros _ _. case_bool_decide; [|by apply run_ret].
  apply run_for_each. intros year _. apply composite_year_spec.
Qed.

(** C5.  With the overwrite flag off, an export identifier that is in the
    snapshot of the active tasks, or whose .csv file is in the bucket
    listing, is skipped: the decision for it is [continue] with no call
    made, and over the whole run no task is cancelled and no job with that
    identifier is started. *)
Theorem active_or_finished_export_skipped (states : list string)
    (years : list (list Z)) (remote : Remote) (export_id : string) :
  is_Some (tasks remote !! export_id) ∨
  (export_id +:+ ".csv") ∈ bucket_files remote →
  gate false remote export_id = ([], inr false) ∧
  ∀ a, a ∈ (main states years false remote).1 →
    (∀ task_id, a ≠ CancelTask task_id) ∧
    (∀ job, a = StartTask job → description job ≠ export_id).
Proof.
  intros Hskip. split.
  - unfold gate. case_bool_decide as Ht; [done|].
    destruct Hskip as [?|Hf]; [done|]. by rewrite bool_decide_eq_true_2.
  - intros a Ha.
    destruct (main_spec states years false remote) as [Hlog _].
    rewrite Forall_forall in Hlog. destruct (Hlog a Ha) as (job & -> & Ht & Hf).
    split; [done|]. intros job' Heq Hd. injection Heq as <-.
    rewrite Hd in Ht, Hf.
    destruct Hskip as [[? ?]|?]; [congruence|done].
Qed.

Lemma active_or_finished_export_skipped_witness :
  let remote := mkRemote {[ "nd_cdl_2020" := "TASK7" ]} ["nd_cdl_2019.csv"] in
  gate false remote "nd_cdl_2020" = ([], inr false) ∧
  ∀ a, a ∈ (main ["ND"] [[2019; 2020; 2021]] false remote).1 →
    (∀ task_id, a ≠ CancelTask task_id) ∧
    (∀ job, a = StartTask job → description job ≠ "nd_cdl_2020").
Proof.
  intros remote.
  apply (active_or_finished_export_skipped ["ND"] [[2019; 2020; 2021]] remote "nd_cdl_2020").
  left. vm_compute. eauto.
Defined.

(** C4 (as amended).  The Source Selector raises on (ID, 2005) and on
    (CA, 2007) when it is reached with the year among the years of the
    state.  A run never reaches it so: the Coverage Table does not list
    the pairs, the coverage gate skips (ID, 2005) with no call made and no
    exception, the CDL loop skips California, the two California loops
    skip 2007, and the run as a whole returns without an exception for
    every selection. *)
Theorem invalid_pairs_skipped (states : list string) (years : list Z)
    (overwrite_flag : bool) (remote : Remote) :
  (∀ (state_years : gmap string (list Z)) (l : list Z),
     state_years !! "ID" = Some l → 2005 ∈ l →
     select_cdl state_years "ID" 2005
     = inl (Exception "ID 2005 CDL image should not be used")) ∧
  (∀ (state_years : gmap string (list Z)) (l : list Z),
     state_years !! "CA" = Some l → 2007 ∈ l →
     select_cdl state_years "CA" 2007
     = inl (Exception "CA 2007b CDL image should not be used")) ∧
  covered states "ID" 2005 = false ∧
  covered states "CA" 2007 = false ∧
  cdl_pair (cdl_state_years states years) overwrite_flag remote "ID" 2005 = ([], inr tt) ∧
  cdl_state (cdl_state_years states years) years overwrite_flag remote "CA" = ([], inr tt) ∧
  landiq_year overwrite_flag remote 2007 = ([], inr tt) ∧
  ExportScript.composite_year overwrite_flag remote 2007 = ([], inr tt) ∧
  (∀ args_states args_years,
     (main args_states args_years overwrite_flag remote).2 = inr tt).
Proof.
  assert (Hsel : ∀ (state_years : gmap string (list Z)) (l : list Z) state year,
            year < cdl_year_min → state_years !! state = Some l → year ∈ l →
            (if year <? cdl_year_min
             then match state_years !! state with
                  | Some l => mret (bool_decide (year ∉ l))
                  | None => raise KeyError
                  end
             else mret false) = (inr false : res bool)).
  { intros sy l state year Hlt Hl Hy.
    destruct (Z.ltb_spec year cdl_year_min); [|lia]. rewrite Hl.
    by rewrite bool_decide_eq_false_2 by (by intros ?). }
  split; [|split; [|split; [|split; [|split; [|split; [|split; [|split]]]]]]].
  - intros sy l Hl Hy. unfold select_cdl. simpl (cdl_year_max <? 2005).
    cbv iota. by rewrite (Hsel sy l "ID" 2005).
  - intros sy l Hl Hy. unfold select_cdl. simpl (cdl_year_max <? 2007).
    cbv iota. by rewrite (Hsel sy l "CA" 2007).
  - apply not_covered_ID_2005.
  - apply not_covered_CA_2007.
  - unfold cdl_pair.
    destruct (cdl_state_years states years !! "ID") as [l|] eqn:Hl; [|done].
    rewrite bool_decide_eq_true_2; [done|]. intros Hy.
    apply (proj2 (cdl_state_years_spec states years "ID") l Hl) in Hy as [_ Hcov].
    by rewrite not_covered_ID_2005 in Hcov.
  - reflexivity.
  - reflexivity.
  - reflexivity.
  - intros args_states args_years.
    destruct (main_spec args_states args_years overwrite_flag remote) as [_ ([] & Hr & _)].
    done.
Qed.

(** C4, as stated, fails: the export over a selection that contains
    (ID, 2005) returns without an exception and without a call. *)
Lemma invalid_pair_not_fatal :
  main ["ID"] [[2005]] false (mkRemote ∅ []) = ([], inr tt) ∧
  ¬ ∃ e, (main ["ID"] [[2005]] false (mkRemote ∅ [])).2 = inl e.
Proof. split; [by vm_compute|]. intros [e He]. vm_compute in He. discriminate He. Qed.

End ExportFacts.

(** * Further properties of the update script *)

Module UpdateMore.
Import UpdateScript UpdateFacts.

(** ** More on the write step *)

Lemma write_feature_dom (features : Stats) (year : Z) (overwrite : bool)
    (ftr g : Feature) :
  write_feature features year overwrite ftr = inr (Some g) → dom g = dom ftr.
Proof.
  intros Hw.
  apply write_feature_written in Hw
    as (oid & ct & values & b & _ & Hct & _ & _ & _ & _ & [cs Hcs] & ->).
  rewrite dom_insert_lookup_L.
  - apply dom_insert_lookup_L. by eexists.
  - rewrite lookup_insert_ne by apply crop_type_field_ne_src. by eexists.
Qed.

(** X1.  [write_features] for a year keeps the number of features, the
    set of fields of every feature, and the value of every field other
    than CROP_<year> and CSRC_<year> (the identifier, and the values of
    all other years), however the loop ends. *)
Theorem write_features_frame (features : Stats) (year : Z) (overwrite : bool)
    (layer : Layer) :
  length (write_layer features year overwrite layer).1 = length layer ∧
  ∀ (i : nat) (ftr : Feature), layer !! i = Some ftr →
    ∃ g, (write_layer features year overwrite layer).1 !! i = Some g ∧
         dom g = dom ftr ∧
         ∀ name, name ≠ crop_type_field year → name ≠ crop_src_field year →
                 g !! name = ftr !! name.
Proof.
  split; [apply update_layer_length|].
  intros i ftr Hi. unfold write_layer.
  destruct (update_layer_lookup (write_feature features year overwrite) layer i ftr Hi)
    as [Hsame|(g & Hg & Hi')].
  - exists ftr. by repeat split.
  - exists g. split; [done|]. split; [by eapply write_feature_dom|].
    intros name H1 H2. by eapply write_feature_frame.
Qed.

(** X2.  A row with a crop type other than 0 is written to the feature
    with its identifier when the feature's crop type is an integer that is
    not positive, or when [overwrite] is on: the loop body stores the
    row's crop type and source, and when the loop over the layer ends
    without an exception the layer holds the feature so written. *)
Theorem nonzero_row_written (features : Stats) (year : Z) (overwrite : bool)
    (layer : Layer) (i : nat) (ftr : Feature) (id : string) (values : Rec) (z : Z) :
  layer !! i = Some ftr →
  ftr !! "OPENET_ID" = Some (PStr id) →
  features !! id = Some values →
  new_crop_type values year ≠ 0 →
  ftr !! crop_type_field year = Some (PInt z) →
  is_Some (ftr !! crop_src_field year) →
  z ≤ 0 ∨ overwrite = true →
  let written :=
    <[crop_src_field year := new_crop_src values year]>
      (<[crop_type_field year := PInt (new_crop_type values year)]> ftr) in
  stored_after features year overwrite ftr = written ∧
  written !! crop_type_field year = Some (PInt (new_crop_type values year)) ∧
  written !! crop_src_field year = Some (new_crop_src values year) ∧
  ((write_layer features year overwrite layer).2 = None →
   (write_layer features year overwrite layer).1 !! i = Some written).
Proof.
  intros Hi Hid Hrow Hne Hct [cs Hcs] Hz written.
  assert (Hw : write_feature features year overwrite ftr = inr (Some written)).
  { unfold write_feature, GetField, SetField. rewrite Hid, Hct. res_simpl. rewrite Hrow.
    destruct (Z.eqb_spec (new_crop_type values year) 0) as [|_]; [done|].
    assert ((0 <? z) && negb overwrite = false)%bool as ->.
    { destruct Hz as [Hz| ->]; [|by rewrite andb_false_r].
      by destruct (Z.ltb_spec 0 z); [lia|]. }
    rewrite lookup_insert_ne by apply crop_type_field_ne_src. by rewrite Hcs. }
  split; [unfold stored_after; by rewrite Hw|].
  split; [unfold written;
          rewrite lookup_insert_ne by (apply not_eq_sym, crop_type_field_ne_src);
          by rewrite lookup_insert_eq|].
  split; [unfold written; by rewrite lookup_insert_eq|].
  intros He. unfold write_layer in *.
  destruct (update_layer_done _ layer i ftr He Hi) as (out & Hout & Hlook).
  rewrite Hw in Hout. by simplify_eq.
Qed.

Lemma nonzero_row_written_witness :
  let ftr : Feature :=
    {[ "OPENET_ID" := PStr "ND_1"; "CROP_2020" := PInt 150; "CSRC_2020" := PStr "old" ]} in
  let values : Rec := {[ "CROP_2020" := PInt 36; "CSRC_2020" := PStr "USDA/NASS/CDL/2020" ]} in
  let features : Stats := {[ "ND_1" := values ]} in
  let written :=
    <[crop_src_field 2020 := new_crop_src values 2020]>
      (<[crop_type_field 2020 := PInt (new_crop_type values 2020)]> ftr) in
  stored_after features 2020 true ftr = written ∧
  written !! crop_type_field 2020 = Some (PInt (new_crop_type values 2020)) ∧
  written !! crop_src_field 2020 = Some (new_crop_src values 2020) ∧
  ((write_layer features 2020 true [ftr]).2 = None →
   (write_layer features 2020 true [ftr]).1 !! 0%nat = Some written).
Proof.
  intros ftr values features.
  apply (nonzero_row_written features 2020 true [ftr] 0 ftr "ND_1" values 150).
  - reflexivity.
  - reflexivity.
  - reflexivity.
  - vm_compute. discriminate.
  - reflexivity.
  - eexists. reflexivity.
  - right. reflexivity.
Defined.

(** The loop body only looks at the row of the feature's identifier. *)
Lemma write_feature_ext (features features' : Stats) (year : Z) (overwrite : bool)
    (ftr : Feature) :
  (∀ id, ftr !! "OPENET_ID" = Some (PStr id) → features !! id = features' !! id) →
  write_feature features year overwrite ftr = write_feature features' year overwrite ftr.
Proof.
  intros Hext. unfold write_feature, GetField.
  destruct (ftr !! "OPENET_ID") as [oid|] eqn:Hid; [|done]. res_simpl.
  destruct (ftr !! crop_type_field year) as [ct|]; [|done]. res_simpl.
  assert (features_lookup features oid = features_lookup features' oid) as ->; [|done].
  destruct oid; simpl; try done. by apply Hext.
Qed.

Lemma update_layer_ext (body body' : Feature → res (option Feature)) (layer : Layer) :
  (∀ ftr, ftr ∈ layer → body ftr = body' ftr) →
  update_layer body layer = update_layer body' layer.
Proof.
  induction layer as [|ftr rest IH]; intros Hext; [done|].
  simpl. rewrite <- (Hext ftr) by (by left).
  rewrite IH; [done|]. intros f Hf. apply Hext. by right.
Qed.

(** X3.  The join is by key match only: a feature whose identifier has no
    row in the result table (or is not a string) stays as it is, and rows
    whose identifier matches no feature of the layer have no effect on the
    outcome of [write_features]. *)
Theorem join_by_key_only (features : Stats) (year : Z) (overwrite : bool)
    (layer : Layer) :
  (∀ (i : nat) (ftr : Feature) (output_id : PyVal),
     layer !! i = Some ftr →
     ftr !! "OPENET_ID" = Some output_id →
     features_lookup features output_id = None →
     stored_after features year overwrite ftr = ftr ∧
     (write_layer features year overwrite layer).1 !! i = Some ftr) ∧
  (∀ features' : Stats,
     (∀ ftr id, ftr ∈ layer → ftr !! "OPENET_ID" = Some (PStr id) →
                features' !! id = features !! id) →
     write_layer features' year overwrite layer = write_layer features year overwrite layer).
Proof.
  split.
  - intros i ftr oid Hi Hid Hnone.
    assert (Hno : ∀ g, write_feature features year overwrite ftr ≠ inr (Some g)).
    { intros g Hw.
      apply write_feature_written in Hw as (oid' & ct & values & b & Hid' & _ & Hv & _).
      congruence. }
    split.
    + unfold stored_after.
      destruct (write_feature features year overwrite ftr) as [e|[g|]] eqn:Hw; try done.
      by destruct (Hno g).
    + by apply update_layer_keeps.
  - intros features' Hext. unfold write_layer. apply update_layer_ext.
    intros ftr Hftr. apply write_feature_ext. intros id Hid. by apply (Hext ftr).
Qed.

(** ** The whole run of the update script *)

Section whole_run.
Context (states : list string) (P : World → Prop).
Context (Hshp : ∀ w state layer layer',
           state ∈ states → shapefiles w !! state = Some layer →
           length layer' = length layer → P w → P (set_shapefile state layer' w)).
Context (Hstats : ∀ w name table,
           bucket w !! (bucket_folder +:+ "/" +:+ name) = Some table →
           P w → P (set_stats name table w)).

Lemma run_with_layer (state : string) (body : Feature → res (option Feature)) :
  state ∈ states → invariant P (with_layer state body).
Proof.
  intros Hin w Hw. unfold with_layer.
  destruct (shapefiles w !! state) as [layer|] eqn:Hl; [|done].
  pose proof (update_layer_length body layer) as Hlen.
  destruct (update_layer body layer) as [layer' [e|]]; simpl in *; by eapply Hshp.
Qed.

Lemma run_fetch_stats (name : string) (force : bool) : invariant P (fetch_stats name force).
Proof. apply fetch_stats_spec. intros w table Hw Hb. by eapply Hstats. Qed.

Lemma run_cdl_year (state : string) (overwrite_flag : bool) (year : Z) :
  state ∈ states → invariant P (cdl_year state overwrite_flag year).
Proof.
  intros Hin. unfold cdl_year.
  apply invariant_bind; [apply run_fetch_stats|]. intros _.
  apply invariant_bind; [apply invariant_stats_isfile|]. intros present.
  apply invariant_if; [apply invariant_ret|].
  apply invariant_bind; [apply invariant_read_stats|]. intros update_features.
  apply invariant_bind; [apply invariant_lift|]. intros _.
  by apply run_with_layer.
Qed.

Lemma run_cdl_state (all_states : list string) (years : list Z) (overwrite_flag : bool)
    (state : string) :
  state ∈ states → invariant P (cdl_state all_states years overwrite_flag state).
Proof.
  intros Hin. unfold cdl_state. case_bool_decide; [apply invariant_ret|].
  apply invariant_bind; [apply invariant_shp_isfile|]. intros present.
  apply invariant_if; [apply invariant_ret|].
  apply invariant_bind.
  { apply invariant_if; [by apply run_with_layer|apply invariant_ret]. }
  intros _. destruct (cdl_state_years all_states years !! state); [|apply invariant_lift].
  apply invariant_for_each. intros year _. by apply run_cdl_year.
Qed.

Lemma run_california (years : list Z) (overwrite_flag : bool) :
  "CA" ∈ states → invariant P (california years overwrite_flag).
Proof.
  intros Hin. unfold california.
  apply invariant_bind; [apply invariant_shp_isfile|]. intros _.
  apply invariant_bind.
  { apply invariant_if; [by apply run_with_layer|apply invariant_ret]. }
  intros _. apply invariant_bind.
  - apply invariant_for_each. intros year _. unfold cadwr_year.
    destruct (year <? 2009); [apply invariant_ret|].
    apply invariant_bind; [apply run_fetch_stats|]. intros _.
    apply invariant_bind; [apply invariant_stats_isfile|]. intros present.
    apply invariant_if; [apply invariant_ret|].
    apply invariant_bind; [apply invariant_read_stats|]. intros update_features.
    apply invariant_bind; [apply invariant_lift|]. intros kept.
    by apply run_with_layer.
  - intros _. apply invariant_for_each. intros year _. unfold composite_year.
    destruct (year <? 2008); [apply invariant_ret|].
    apply invariant_bind; [apply run_fetch_stats|]. intros _.
    apply invariant_bind; [apply invariant_stats_isfile|]. intros present.
    apply invariant_if; [apply invariant_ret|].
    apply invariant_bind; [apply invariant_read_stats|]. intros update_features.
    apply invariant_bind; [apply invariant_lift|]. intros _.
    by apply run_with_layer.
Qed.
End whole_run.

(** What a run can do to the world: replace the layer of a selected state
    that has a shapefile by one of the same length, and store a table of
    the bucket as a local result file. *)
Lemma main_invariant (P : World → Prop) (states : list string) (years : list (list Z))
    (overwrite_flag : bool) :
  (∀ w state layer layer',
     state ∈ enumerate_states states → shapefiles w !! state = Some layer →
     length layer' = length layer → P w → P (set_shapefile state layer' w)) →
  (∀ w name table,
     bucket w !! (bucket_folder +:+ "/" +:+ name) = Some table →
     P w → P (set_stats name table w)) →
  invariant P (main states years overwrite_flag).
Proof.
  intros Hshp Hstats. unfold main. cbv zeta.
  apply invariant_bind.
  - apply invariant_for_each. intros state Hin. by apply (run_cdl_state (enumerate_states states)).
  - intros _. case_bool_decide; [|apply invariant_ret].
    by apply (run_california (enumerate_states states)).
Qed.

(** X4.  A run of the update script, however it ends and with any flag:
    never changes the bucket; never creates or removes a shapefile and
    keeps the number of features of each; leaves the shapefile of a state
    that is not selected as it is; and never removes a local result
    file. *)
Theorem main_reads_bucket_only (states : list string) (years : list (list Z))
    (overwrite_flag : bool) (w : World) :
  let w' := (main states years overwrite_flag w).1 in
  bucket w' = bucket w ∧
  dom (shapefiles w') = dom (shapefiles w) ∧
  (∀ state layer, shapefiles w !! state = Some layer → layer_length state (length layer) w') ∧
  (∀ state, state ∉ enumerate_states states → shapefiles w' !! state = shapefiles w !! state) ∧
  dom (stats_ws w) ⊆ dom (stats_ws w').
Proof.
  intros w'. unfold w'. repeat split.
  - apply (invariant_final (λ w0, bucket w0 = bucket w)); [|done].
    apply main_invariant; by intros.
  - apply (invariant_final (λ w0, dom (shapefiles w0) = dom (shapefiles w))); [|done].
    apply main_invariant; [|by intros].
    intros w0 state layer layer' _ Hl _ <-. simpl.
    apply dom_insert_lookup_L. by eexists.
  - intros state layer Hl.
    apply (invariant_final (layer_length state (length layer))); [|by exists layer].
    apply main_invariant; [|by intros].
    intros w0 state' layer0 layer' _ Hl0 Hlen (layer1 & Hl1 & Hlen1).
    unfold layer_length. simpl. destruct (decide (state' = state)) as [->|Hne].
    + rewrite lookup_insert_eq. exists layer'. split; [done|]. congruence.
    + rewrite lookup_insert_ne by done. by exists layer1.
  - intros state Hnot.
    apply (invariant_final (λ w0, shapefiles w0 !! state = shapefiles w !! state)); [|done].
    apply main_invariant; [|by intros].
    intros w0 state' layer layer' Hin _ _ <-. simpl.
    apply lookup_insert_ne. by intros ->.
  - apply (invariant_final (λ w0, dom (stats_ws w) ⊆ dom (stats_ws w0))); [|done].
    apply main_invariant; [by intros|].
    intros w0 name table _ Hsub. simpl. rewrite dom_insert. set_solver.
Qed.

(** ** One feature along the whole run *)

Section feature_run.
Context (state : string) (i : nat) (Q : Feature → Prop) (overwrite_flag : bool).
Context (Hwrite : ∀ features year overwrite ftr g,
           (overwrite = true → overwrite_flag = true) →
           Q ftr → write_feature features year overwrite ftr = inr (Some g) → Q g).
Context (Hclear : overwrite_flag = true →
           ∀ years ftr g, Q ftr → clear_feature years ftr = inr (Some g) → Q g).

Local Abbreviation P := (feature_at state i Q).

Lemma feature_write_features (state' : string) (features : Stats) (year : Z)
    (overwrite : bool) :
  (overwrite = true → overwrite_flag = true) →
  invariant P (write_features state' features year overwrite).
Proof.
  intros Hov. apply feature_at_with_layer. intros _ ftr g HQ Hw.
  by apply (Hwrite features year overwrite ftr g).
Qed.

Lemma feature_clear_values (state' : string) (years : list Z) :
  invariant P (if overwrite_flag then clear_values state' years else mret tt).
Proof.
  destruct overwrite_flag eqn:Hov; [|apply invariant_ret].
  apply feature_at_with_layer. intros _ ftr g HQ Hc. by apply (Hclear eq_refl years ftr g).
Qed.

Lemma feature_main (states : list string) (years : list (list Z)) :
  invariant P (main states years overwrite_flag).
Proof.
  unfold main. cbv zeta. apply invariant_bind.
  - apply invariant_for_each. intros state' _. unfold cdl_state.
    case_bool_decide; [apply invariant_ret|].
    apply invariant_bind; [apply invariant_shp_isfile|]. intros present.
    apply invariant_if; [apply invariant_ret|].
    apply invariant_bind; [apply feature_clear_values|]. intros _.
    destruct (cdl_state_years _ _ !! state'); [|apply invariant_lift].
    apply invariant_for_each. intros year _. unfold cdl_year.
    apply invariant_bind; [apply feature_at_fetch_stats|]. intros _.
    apply invariant_bind; [apply invariant_stats_isfile|]. intros present'.
    apply invariant_if; [apply invariant_ret|].
    apply invariant_bind; [apply invariant_read_stats|]. intros update_features.
    apply invariant_bind; [apply invariant_lift|]. intros _.
    by apply feature_write_features.
  - intros _. case_bool_decide; [|apply invariant_ret]. unfold california.
    apply invariant_bind; [apply invariant_shp_isfile|]. intros _.
    apply invariant_bind; [apply feature_clear_values|]. intros _.
    apply invariant_bind.
    + apply invariant_for_each. intros year _. unfold cadwr_year.
      destruct (year <? 2009); [apply invariant_ret|].
      apply invariant_bind; [apply feature_at_fetch_stats|]. intros _.
      apply invariant_bind; [apply invariant_stats_isfile|]. intros present.
      apply invariant_if; [apply invariant_ret|].
      apply invariant_bind; [apply invariant_read_stats|]. intros update_features.
      apply invariant_bind; [apply invariant_lift|]. intros kept.
      by apply feature_write_features.
    + intros _. apply invariant_for_each. intros year _. unfold composite_year.
      destruct (year <? 2008); [apply invariant_ret|].
      apply invariant_bind; [apply feature_at_fetch_stats|]. intros _.
      apply invariant_bind; [apply invariant_stats_isfile|]. intros present.
      apply invariant_if; [apply invariant_ret|].
      apply invariant_bind; [apply invariant_read_stats|]. intros update_features.
      apply invariant_bind; [apply invariant_lift|]. intros _.
      by apply feature_write_features.
Qed.
End feature_run.

(** X5.  Without the overwrite flag a whole run of the update script,
    over any states and years and however it ends, keeps every crop type
    that is greater than zero, and its source. *)
Theorem main_keeps_positive (states : list string) (years : list (list Z)) (w : World)
    (state : string) (layer : Layer) (i : nat) (ftr : Feature) (year z : Z) :
  shapefiles w !! state = Some layer →
  layer !! i = Some ftr →
  ftr !! crop_type_field year = Some (PInt z) →
  0 < z →
  feature_at state i
    (year_values year (Some (PInt z)) (ftr !! crop_src_field year))
    (main states years false w).1.
Proof.
  intros Hl Hi Hc Hz.
  apply invariant_final; [|by exists layer, ftr].
  apply feature_main; [|done].
  intros features year' overwrite f g Hov HQ Hw.
  destruct overwrite; [by specialize (Hov eq_refl)|].
  destruct (decide (year' = year)) as [->|Hne].
  - destruct HQ as [Hc' _]. by destruct (write_feature_positive features year f z Hc' Hz g).
  - by apply (year_values_other_year features year year' false _ _ f g).
Qed.

Lemma main_keeps_positive_witness :
  let ftr : Feature :=
    {[ "OPENET_ID" := PStr "ND_1"; "CROP_2020" := PInt 36;
       "CSRC_2020" := PStr "USDA/NASS/CDL/2020" ]} in
  let row : Rec := {[ "CROP_2020" := PInt 5; "CSRC_2020" := PStr "new" ]} in
  let w := mkWorld {[ "ND" := [ftr] ]} {[ "nd_cdl_2020.csv" := {[ "ND_1" := row ]} ]} ∅ in
  feature_at "ND" 0
    (year_values 2020 (Some (PInt 36)) (ftr !! crop_src_field 2020))
    (main ["ND"] [[2020]] false w).1.
Proof.
  intros ftr row w.
  apply (main_keeps_positive ["ND"] [[2020]] w "ND" [ftr] 0 ftr 2020 36).
  - reflexivity.
  - reflexivity.
  - reflexivity.
  - lia.
Defined.

Lemma clear_feature_frame (years : list Z) (ftr g : Feature) :
  clear_feature years ftr = inr (Some g) →
  dom g = dom ftr ∧
  ∀ name, (∀ y, y ∈ years → name ≠ crop_type_field y ∧ name ≠ crop_src_field y) →
          g !! name = ftr !! name.
Proof.
  unfold clear_feature. revert g.
  induction years as [|y years IH] using rev_ind; intros g Hg.
  - res_simpl. by simplify_eq.
  - rewrite foldl_app in Hg. simpl in Hg.
    destruct (foldl _ _ years) as [e|g0] eqn:Hfold; [done|].
    destruct (IH g0 eq_refl) as [Hdom Hframe].
    unfold SetField in Hg. res_simpl.
    destruct (g0 !! crop_type_field y) as [c|] eqn:Hc; [|done]. res_simpl.
    rewrite lookup_insert_ne in Hg by apply crop_type_field_ne_src.
    destruct (g0 !! crop_src_field y) as [s|] eqn:Hs; [|done]. res_simpl.
    injection Hg as <-. split.
    + rewrite <- Hdom. rewrite dom_insert_lookup_L.
      * apply dom_insert_lookup_L. by eexists.
      * rewrite lookup_insert_ne by apply crop_type_field_ne_src. by eexists.
    + intros name Hname.
      destruct (Hname y) as [H1 H2]; [apply elem_of_app; right; by left|].
      rewrite !lookup_insert_ne by done. apply Hframe.
      intros y' Hy'. apply Hname. apply elem_of_app. by left.
Qed.

(** X6.  A whole run of the update script, with any flag and however it
    ends, only ever changes CROP_<year> and CSRC_<year> values: every
    feature is still at its position, with the same set of fields and the
    same value in every other field (its identifier among them). *)
Theorem main_touches_year_fields_only (states : list string) (years : list (list Z))
    (overwrite_flag : bool) (w : World) (state : string) (layer : Layer) (i : nat)
    (ftr : Feature) :
  shapefiles w !! state = Some layer →
  layer !! i = Some ftr →
  feature_at state i (same_other_fields ftr) (main states years overwrite_flag w).1 ∧
  feature_at state i (λ g, g !! "OPENET_ID" = ftr !! "OPENET_ID")
    (main states years overwrite_flag w).1.
Proof.
  intros Hl Hi.
  assert (Hmain : feature_at state i (same_other_fields ftr)
                    (main states years overwrite_flag w).1).
  { apply invariant_final; [|exists layer, ftr; by repeat split].
    apply feature_main.
    - intros features year overwrite f g _ [Hdom Hsame] Hw. split.
      + rewrite <- Hdom. by eapply write_feature_dom.
      + intros name Hname. rewrite <- (Hsame name Hname).
        destruct (Hname year). by eapply write_feature_frame.
    - intros _ ys f g [Hdom Hsame] Hc.
      destruct (clear_feature_frame ys f g Hc) as [Hdom' Hframe]. split; [congruence|].
      intros name Hname. rewrite <- (Hsame name Hname). apply Hframe.
      intros y _. apply Hname. }
  split; [done|].
  destruct Hmain as (layer' & g & Hl' & Hi' & _ & Hsame).
  exists layer', g. split; [done|]. split; [done|]. apply Hsame.
  intros year. split; apply not_eq_sym;
    [apply crop_type_field_ne_id|apply crop_src_field_ne_id].
Qed.

Lemma main_touches_year_fields_only_witness :
  let ftr : Feature :=
    {[ "OPENET_ID" := PStr "ND_1"; "MGRS_TILE" := PStr "14TMT"; "CROP_2020" := PInt 36;
       "CSRC_2020" := PStr "USDA/NASS/CDL/2020" ]} in
  let w := mkWorld {[ "ND" := [ftr] ]} ∅ ∅ in
  feature_at "ND" 0 (same_other_fields ftr) (main ["ND"] [[2020]] true w).1 ∧
  feature_at "ND" 0 (λ g, g !! "OPENET_ID" = ftr !! "OPENET_ID")
    (main ["ND"] [[2020]] true w).1.
Proof.
  intros ftr w.
  apply (main_touches_year_fields_only ["ND"] [[2020]] true w "ND" [ftr] 0 ftr).
  - reflexivity.
  - reflexivity.
Defined.

(** ** The coverage test and the filter *)

Lemma half_le_div (c t : Z) :
  0 < t → Qle_bool (1 # 2) (inject_Z c / inject_Z t) = (t <=? 2 * c).
Proof.
  intros Ht.
  assert (Hpos : (0 < inject_Z t)%Q) by (unfold Qlt; simpl; lia).
  apply eq_true_iff_eq. rewrite Qle_bool_iff, Z.leb_le. split.
  - intros H. apply (Qmult_le_compat_r _ _ (inject_Z t)) in H; [|by apply Qlt_le_weak].
    unfold Qdiv in H. rewrite <- Qmult_assoc in H.
    rewrite (Qmult_comm (/ inject_Z t)) in H.
    rewrite Qmult_inv_r in H by (intros H0; rewrite H0 in Hpos; by apply Qlt_irrefl in Hpos).
    rewrite Qmult_1_r in H. unfold Qle in H. simpl in H. lia.
  - intros H. apply Qle_shift_div_l; [done|]. unfold Qle. simpl. lia.
Qed.



Lemma drop_low_coverage_rows (rows : list (string * Rec)) :
  NoDup rows.*1 →
  match foldr
          (λ (row : string * Rec) (rest : res Stats),
             ok ← coverage_ok row.2;
             kept ← rest;
             mret (if ok : bool then <[row.1 := row.2]> kept else kept))
          (mret ∅) rows with
  | inr kept =>
      (∀ k v, (k, v) ∈ rows → ∃ b, coverage_ok v = inr b) ∧
      ∀ k v, kept !! k = Some v ↔ (k, v) ∈ rows ∧ coverage_ok v = inr true
  | inl e => ∃ k v, (k, v) ∈ rows ∧ coverage_ok v = inl e
  end.
Proof.
  induction rows as [|[k0 v0] rows IH]; intros Hnd; simpl.
  - split; [by intros k v ?%elem_of_nil|]. intros k v. rewrite lookup_empty.
    split; [done|by intros [?%elem_of_nil _]].
  - apply NoDup_cons in Hnd as [Hk0 Hnd]. specialize (IH Hnd).
    res_simpl.
    destruct (coverage_ok v0) as [e|ok] eqn:Hok.
    { exists k0, v0. split; [by left|done]. }
    destruct (foldr _ _ rows) as [e|kept0]; simpl.
    { destruct IH as (k & v & Hin & He). exists k, v. split; [by right|done]. }
    destruct IH as [Hall Hkept]. split.
    { intros k v [[= -> ->]|Hin]%elem_of_cons; [by eexists|by eapply Hall]. }
    intros k v. rewrite elem_of_cons.
    assert (Hfresh : ∀ v', (k0, v') ∉ rows).
    { intros v' Hin. apply Hk0. apply list_elem_of_fmap. by exists (k0, v'). }
    destruct ok.
    + destruct (decide (k0 = k)) as [->|Hne].
      * rewrite lookup_insert_eq. split.
        -- intros [= ->]. split; [by left|done].
        -- intros [[[= ->]|Hin] _]; [done|]. by destruct (Hfresh v).
      * rewrite lookup_insert_ne by done. rewrite Hkept. split.
        -- intros [? ?]. split; [by right|done].
        -- intros [[[= -> _]|Hin] ?]; [done|by split].
    + rewrite Hkept. split.
      * intros [? ?]. split; [by right|done].
      * intros [[[= -> ->]|Hin] Htrue]; [congruence|by split].
Qed.

(** X8.  The low-coverage filter keeps exactly the rows that pass the
    coverage test, each as it is; it raises exactly when the test raises on
    some row (a missing PIXEL column, a count that is not a number), with
    an exception of such a row. *)
Theorem drop_low_coverage_exact (table : Stats) :
  match drop_low_coverage table with
  | inr kept =>
      (∀ k v, table !! k = Some v → ∃ b, coverage_ok v = inr b) ∧
      ∀ k v, kept !! k = Some v ↔ table !! k = Some v ∧ coverage_ok v = inr true
  | inl e => ∃ k v, table !! k = Some v ∧ coverage_ok v = inl e
  end.
Proof.
  unfold drop_low_coverage.
  pose proof (drop_low_coverage_rows (map_to_list table) (NoDup_fst_map_to_list table)) as H.
  destruct (foldr _ _ (map_to_list table)) as [e|kept].
  - destruct H as (k & v & Hin & He). exists k, v. by rewrite <- elem_of_map_to_list.
  - destruct H as [Hall Hkept]. split.
    + intros k v Hkv. apply (Hall k v). by apply elem_of_map_to_list.
    + intros k v. by rewrite Hkept, elem_of_map_to_list.
Qed.

(** ** The log of the rows without a crop type *)

Lemma log_rows_spec (year : Z) (rows : list Rec) :
  foldr (λ ftr k, _ ← log_row year ftr; k) (mret tt) rows = inr tt ↔
  ∀ row, row ∈ rows → log_row year row = inr tt.
Proof.
  induction rows as [|row rows IH]; simpl.
  - split; [by intros _ row ?%elem_of_nil|done].
  - res_simpl. split.
    + intros H. destruct (log_row year row) as [e|[]] eqn:Hrow; [done|].
      intros r [->|Hr]%elem_of_cons; [done|]. by apply IH.
    + intros H. rewrite (H row) by (by left). apply IH. intros r Hr. apply H. by right.
Qed.

Lemma log_row_cases (year : Z) (row : Rec) :
  log_row year row
  = match row !! crop_type_field year with
    | None => inl KeyError
    | Some v =>
        if (py_is_None v || py_eq0 v)%bool
        then match row !! "OPENET_ID" with Some _ => inr tt | None => inl KeyError end
        else inr tt
    end.
Proof.
  unfold log_row, getitem.
  destruct (row !! crop_type_field year) as [v|]; [|done]. res_simpl.
  destruct (py_is_None v); simpl.
  - by destruct (row !! "OPENET_ID").
  - destruct (py_eq0 v); [|done]. by destruct (row !! "OPENET_ID").
Qed.

(** X9.  The logging loop before the write step returns only when every
    row has the CROP_<year> column and every row whose crop type is [None]
    or equal to 0 also has an OPENET_ID entry; otherwise it raises
    [KeyError].  So in the CDL pass a result file with a row of crop type 0
    and no OPENET_ID entry (the identifier is the key of the row, it is not
    in it) ends the pass with [KeyError] before anything is written. *)
Theorem log_missing_raises (year : Z) (table : Stats) :
  (log_missing year table = inr tt ↔
   ∀ k row, table !! k = Some row →
     ∃ v, row !! crop_type_field year = Some v ∧
          ((py_is_None v || py_eq0 v)%bool = true → is_Some (row !! "OPENET_ID"))) ∧
  (∀ e, log_missing year table = inl e → e = KeyError) ∧
  (∀ (state : string) (w : World) (k : string) (row : Rec) (v : PyVal),
     let stats_name := lower (state +:+ "_cdl_" +:+ pretty year +:+ ".csv") in
     stats_ws w !! stats_name = Some table →
     table !! k = Some row →
     row !! crop_type_field year = Some v → py_eq0 v = true →
     row !! "OPENET_ID" = None →
     cdl_year state false year w = (w, inl KeyError)).
Proof.
  assert (Hiff : log_missing year table = inr tt ↔
   ∀ k row, table !! k = Some row →
     ∃ v, row !! crop_type_field year = Some v ∧
          ((py_is_None v || py_eq0 v)%bool = true → is_Some (row !! "OPENET_ID"))).
  { unfold log_missing. rewrite log_rows_spec. split.
    - intros H k row Hrow.
      specialize (H row). rewrite log_row_cases in H.
      destruct (row !! crop_type_field year) as [v|].
      + exists v. split; [done|]. intros Hz. rewrite Hz in H.
        destruct (row !! "OPENET_ID"); [by eexists|].
        assert (inl KeyError = inr tt :> res unit); [|done].
        apply H. apply list_elem_of_fmap. exists (k, row). split; [done|].
        by apply elem_of_map_to_list.
      + assert (inl KeyError = inr tt :> res unit); [|done].
        apply H. apply list_elem_of_fmap. exists (k, row). split; [done|].
        by apply elem_of_map_to_list.
    - intros H row Hin. apply list_elem_of_fmap in Hin as ([k row'] & -> & Hin).
      apply elem_of_map_to_list in Hin. simpl.
      destruct (H k row' Hin) as (v & Hv & Hid). rewrite log_row_cases, Hv.
      destruct (py_is_None v || py_eq0 v)%bool; [|done].
      by destruct (Hid eq_refl) as [? ->]. }
  assert (Herr : ∀ e, log_missing year table = inl e → e = KeyError).
  { unfold log_missing. induction (snd <$> map_to_list table) as [|row rows IH]; simpl.
    - by intros e.
    - intros e. res_simpl. rewrite log_row_cases.
      destruct (row !! crop_type_field year) as [v|]; [|by intros [= <-]].
      destruct (py_is_None v || py_eq0 v)%bool; [|apply IH].
      destruct (row !! "OPENET_ID"); [apply IH|by intros [= <-]]. }
  split; [done|]. split; [done|].
  intros state w k row v stats_name Hfile Hrow Hv Hz Hid.
  assert (Hlog : log_missing year table = inl KeyError).
  { assert (Hne : log_missing year table ≠ inr tt).
    { intros Hlog. destruct (proj1 Hiff Hlog k row Hrow) as (v' & Hv' & Hsome).
      simplify_eq. rewrite Hz, orb_true_r in Hsome.
      destruct (Hsome eq_refl). congruence. }
    destruct (log_missing year table) as [e|[]] eqn:Hlog.
    - by rewrite (Herr e eq_refl).
    - by destruct Hne. }
  subst stats_name.
  unfold cdl_year, fetch_stats, stats_isfile, read_stats, UpdateScript.lift.
  cbv zeta. repeat (unfold mbind, M_bind; cbv beta iota).
  repeat first
    [ rewrite Hfile
    | rewrite bool_decide_eq_true_2 by eauto
    | progress cbv beta iota delta [negb orb M_ret mret] ].
  by rewrite Hlog.
Qed.

Lemma log_missing_raises_witness :
  let row : Rec := {[ "CROP_2020" := PInt 0; "CSRC_2020" := PStr "USDA/NASS/CDL/2020" ]} in
  let table : Stats := {[ "ND_1" := row ]} in
  let w := mkWorld {[ "ND" := [ {[ "OPENET_ID" := PStr "ND_1"; "CROP_2020" := PInt 0;
                                   "CSRC_2020" := PStr "" ]} ] ]}
                   {[ "nd_cdl_2020.csv" := table ]} ∅ in
  cdl_year "ND" false 2020 w = (w, inl KeyError).
Proof.
  intros row table w.
  apply (proj2 (proj2 (log_missing_raises 2020 table)) "ND" w "ND_1" row (PInt 0));
    reflexivity.
Defined.

End UpdateMore.

(** * Further properties of the enumerators and the Coverage Table *)

(** ** State/Year Enumerator *)

Lemma years_in_range_elem (years : list (list Z)) (year : Z) :
  year ∈ years_in_range years ↔
  year_min ≤ year ≤ year_max ∧ ∃ l, l ∈ years ∧ year ∈ l.
Proof.
  unfold years_in_range. rewrite elem_of_remove_dups, list_elem_of_filter.
  unfold in_year_range. rewrite andb_true_iff, !Z.leb_le.
  assert (year ∈ concat years ↔ ∃ l, l ∈ years ∧ year ∈ l) as ->.
  { induction years as [|l years IH]; simpl.
    - split; [by intros ?%elem_of_nil|by intros (l & ?%elem_of_nil & _)].
    - rewrite elem_of_app, IH. split.
      + intros [?|(l' & ? & ?)]; [exists l; split; [by left|done]|].
        exists l'. split; [by right|done].
      + intros (l' & [->|?]%elem_of_cons & ?); [by left|right; by exists l']. }
  split; [intros [[? ?] ?]|intros [[? ?] ?]]; by repeat split.
Qed.

Lemma year_range_sorted : Sorted Z.le year_range ∧ NoDup year_range.
Proof.
  split; [|apply NoDup_seqZ].
  unfold year_range, year_min, year_max.
  apply (bool_decide_unpack (Sorted Z.le (seqZ 1997 (2024 - 1997 + 1)))).
  vm_compute. exact I.
Qed.

(** X10.  The years the scripts loop over have no duplicates and are the
    years from [year_min] to [year_max] that the selection names (all of
    them when no year is given); the update script takes them in
    ascending order, the export script in descending order. *)
Theorem enumerate_years_sorted (years : list (list Z)) :
  (Sorted Z.le (UpdateScript.enumerate_years years) ∧
   NoDup (UpdateScript.enumerate_years years)) ∧
  (Sorted (flip Z.le) (ExportScript.enumerate_years years) ∧
   NoDup (ExportScript.enumerate_years years)) ∧
  ∀ year,
    (year ∈ UpdateScript.enumerate_years years ↔
     year_min ≤ year ≤ year_max ∧ (years = [] ∨ ∃ l, l ∈ years ∧ year ∈ l)) ∧
    (year ∈ ExportScript.enumerate_years years ↔ year ∈ UpdateScript.enumerate_years years).
Proof.
  assert (Hup : ∀ year, year ∈ UpdateScript.enumerate_years years ↔
     year_min ≤ year ≤ year_max ∧ (years = [] ∨ ∃ l, l ∈ years ∧ year ∈ l)).
  { intros year. unfold UpdateScript.enumerate_years. case_bool_decide as Hnil.
    - unfold year_range, year_min, year_max. rewrite elem_of_seqZ.
      split; [intros ?; split; [lia|by left]|intros [? _]; lia].
    - rewrite merge_sort_Permutation, years_in_range_elem.
      split; [intros [? ?]; split; [done|by right]|].
      intros [? [?|?]]; [done|by split]. }
  split; [|split].
  - unfold UpdateScript.enumerate_years. case_bool_decide; [apply year_range_sorted|].
    split; [apply (Sorted_merge_sort Z.le)|].
    rewrite merge_sort_Permutation. apply NoDup_remove_dups.
  - unfold ExportScript.enumerate_years. split.
    + apply Sorted_reverse, (Sorted_merge_sort Z.le).
    + rewrite reverse_Permutation, merge_sort_Permutation.
      case_bool_decide; [apply year_range_sorted|apply NoDup_remove_dups].
  - intros year. split; [apply Hup|].
    unfold ExportScript.enumerate_years, UpdateScript.enumerate_years.
    rewrite elem_of_reverse, merge_sort_Permutation.
    case_bool_decide; [done|]. by rewrite merge_sort_Permutation.
Qed.



(** ** The Coverage Table, year by year *)

Lemma add_year_fold_exact (year : Z) (sts : list string) (table : gmap string (list Z))
    (state : string) :
  NoDup sts →
  foldl (add_year year) table sts !! state
  = (λ l : list Z, (l ++ (if bool_decide (state ∈ sts) then [year] else []))%list)
      <$> table !! state.
Proof.
  intros Hnd. revert table. induction Hnd as [|s sts Hnot Hnd IH]; intros table; simpl.
  - destruct (table !! state); simpl; [by rewrite app_nil_r|done].
  - rewrite IH. unfold add_year. destruct (decide (s = state)) as [->|Hne].
    + rewrite lookup_alter_eq.
      rewrite (bool_decide_eq_false_2 (state ∈ sts)) by done.
      rewrite (bool_decide_eq_true_2 (state ∈ state :: sts)) by (by left).
      destruct (table !! state); simpl; [by rewrite app_nil_r|done].
    + rewrite lookup_alter_ne by done.
      assert (bool_decide (state ∈ s :: sts) = bool_decide (state ∈ sts)) as ->; [|done].
      apply bool_decide_ext. rewrite elem_of_cons. split; [intros [?|?]; by subst|by right].
Qed.

Lemma cdl_year_states_NoDup (states sts : list string) (year : Z) :
  NoDup states → cdl_year_states states !! year = Some sts → NoDup sts.
Proof.
  intros Hnd Hsts.
  destruct (decide (year < year_min ∨ year_max < year)) as [Hout|Hin].
  { by rewrite cdl_year_states_outside in Hsts. }
  destruct (decide (cdl_year_min ≤ year)) as [Hfull|Hover].
  { rewrite cdl_year_states_full in Hsts
      by (unfold year_min, year_max, cdl_year_min, cdl_year_max in *; lia).
    by injection Hsts as <-. }
  rewrite cdl_year_states_override in Hsts
    by (unfold year_min, year_max, cdl_year_min, cdl_year_max in *; lia).
  unfold year_min, year_max, cdl_year_min, cdl_year_max in *.
  assert (year = 1997 ∨ year = 1998 ∨ year = 1999 ∨ year = 2000 ∨ year = 2001 ∨
          year = 2002 ∨ year = 2003 ∨ year = 2004 ∨ year = 2005 ∨ year = 2006 ∨
          year = 2007) as Hcases by lia.
  repeat (destruct Hcases as [->|Hcases];
          [vm_compute in Hsts; injection Hsts as <-;
           apply (bool_decide_unpack _); vm_compute; exact I|]).
  subst year. vm_compute in Hsts. injection Hsts as <-.
  apply (bool_decide_unpack _). vm_compute. exact I.
Qed.

(** X18.  For states listed once, the years of a configured state are the
    selected years the Coverage Table covers for it, each as often as it
    is selected and in the order of the selection; a state that is not
    configured has no entry.  The states the scripts enumerate are listed
    once. *)
Theorem cdl_state_years_exact (states : list string) (years : list Z) (state : string) :
  NoDup states →
  cdl_state_years states years !! state
  = (if bool_decide (state ∈ states)
     then Some (filter (λ year, covered states state year = true) years)
     else None) ∧
  ∀ args, NoDup (enumerate_states args).
Proof.
  intros Hnd. split.
  - unfold cdl_state_years.
    set (step := λ (table : gmap string (list Z)) (year : Z),
           match cdl_year_states states !! year with
           | Some sts => foldl (add_year year) table sts
           | None => table
           end).
    set (init := list_to_map ((λ state0 : string, (state0, @nil Z)) <$> states)
                 : gmap string (list Z)).
    assert (Hinit : init !! state = if bool_decide (state ∈ states) then Some [] else None).
    { unfold init. case_bool_decide as Hs.
      - apply elem_of_list_to_map_1; [by rewrite fst_pair_fmap|].
        apply list_elem_of_fmap. by exists state.
      - apply not_elem_of_list_to_map_1. by rewrite fst_pair_fmap. }
    induction years as [|y years IH] using rev_ind; [done|].
    rewrite foldl_app, filter_app, filter_cons, filter_nil.
    cbn [foldl]. unfold step at 1.
    destruct (cdl_year_states states !! y) as [sts|] eqn:Hy.
    + assert (Hcov : covered states state y = bool_decide (state ∈ sts))
        by (unfold covered; by rewrite Hy).
      rewrite add_year_fold_exact by (by apply (cdl_year_states_NoDup states sts y)).
      rewrite IH. destruct (bool_decide (state ∈ states)); [|done].
      cbn [fmap option_fmap option_map]. f_equal. f_equal.
      destruct (decide (covered states state y = true)) as [Hc|Hc];
        rewrite Hcov in Hc; by destruct (bool_decide (state ∈ sts)).
    + assert (Hcov : covered states state y = false)
        by (unfold covered; by rewrite Hy).
      rewrite IH. destruct (bool_decide (state ∈ states)); [|done]. f_equal.
      rewrite decide_False by (by rewrite Hcov). by rewrite app_nil_r.
  - intros args. unfold enumerate_states. case_bool_decide.
    + apply (bool_decide_unpack _). vm_compute. exact I.
    + rewrite merge_sort_Permutation. apply NoDup_remove_dups.
Qed.

Lemma cdl_state_years_exact_witness :
  let states := ["ND"; "CA"] in
  let years := [2005; 1997; 2020; 2005] in
  (cdl_state_years states years !! "ND"
   = (if bool_decide ("ND" ∈ states)
      then Some (filter (λ year, covered states "ND" year = true) years)
      else None)) ∧
  ∀ args, NoDup (enumerate_states args).
Proof.
  intros states years. apply (cdl_state_years_exact states years "ND").
  apply (bool_decide_unpack _). vm_compute. exact I.
Defined.

(** * Further properties of the export script *)

Module ExportMore.
Import ExportScript ExportFacts.

(** ** Source Selector (CDL) *)

(** X12.  For a (state, year) the coverage gate lets through, the CDL
    selector takes the image of the year itself (2005a/2005b and 2007a in
    those years), not remapped, and the provenance is the image
    identifier: the two remapping branches are not reached from the CDL
    loop. *)
Theorem select_cdl_native (states : list string) (years l : list Z) (state : string)
    (year : Z) :
  cdl_state_years states years !! state = Some l → year ∈ l →
  select_cdl (cdl_state_years states years) state year
  = inr (mkSource (mkImage (cdl_native_id state year) false false)
                  (cdl_native_id state year)) ∧
  year_min ≤ year ≤ year_max.
Proof.
  intros Hl Hy.
  pose proof (proj2 (cdl_state_years_spec states years state) l Hl year) as Hspec.
  destruct (proj1 Hspec Hy) as [_ Hcov].
  assert (Hr : year_min ≤ year ≤ year_max).
  { destruct (decide (year_min ≤ year ≤ year_max)) as [|Hout]; [done|].
    unfold covered in Hcov. rewrite cdl_year_states_outside in Hcov by lia. done. }
  split; [|done].
  unfold select_cdl, cdl_native_id.
  destruct (Z.ltb_spec cdl_year_max year) as [Hgt|_].
  { unfold year_max, cdl_year_max in *. lia. }
  rewrite Hl.
  assert (Hfill : (if year <? cdl_year_min then mret (bool_decide (year ∉ l)) else mret false)
                  = (inr false : res bool)).
  { destruct (year <? cdl_year_min); [|done].
    by rewrite bool_decide_eq_false_2 by (by intros ?). }
  rewrite Hfill. unfold mbind, res_bind. clear Hfill Hspec Hy.
  destruct (Z.eqb_spec year 2005) as [->|_].
  { case_bool_decide as Hid; [|by case_bool_decide].
    subst state. by rewrite not_covered_ID_2005 in Hcov. }
  destruct (Z.eqb_spec year 2007) as [->|_]; [|done].
  case_bool_decide as Hca; [|done].
  subst state. by rewrite not_covered_CA_2007 in Hcov.
Qed.

Lemma select_cdl_native_witness :
  select_cdl (cdl_state_years ["MS"; "ND"] [2005; 2020]) "MS" 2005
  = inr (mkSource (mkImage (cdl_native_id "MS" 2005) false false)
                  (cdl_native_id "MS" 2005)) ∧
  year_min ≤ 2005 ≤ year_max.
Proof.
  apply (select_cdl_native ["MS"; "ND"] [2005; 2020] [2005; 2020] "MS" 2005).
  - vm_compute. reflexivity.
  - vm_compute. by left.
Defined.

(** ** Remote Job Submitter *)

Lemma lower_ascii_idemp (c : ascii) : lower_ascii (lower_ascii c) = lower_ascii c.
Proof. destruct c as [[] [] [] [] [] [] [] []]; reflexivity. Qed.

Lemma lower_idemp (s : string) : lower (lower s) = lower s.
Proof. induction s as [|c s IH]; [done|]. simpl. by rewrite lower_ascii_idemp, IH. Qed.

Section calls.
Context (states : list string) (years : list Z).
Context (overwrite_flag : bool) (remote : Remote).

Local Abbreviation Φ := (expected_call states years overwrite_flag remote).

Lemma gate_calls (export_id : string) :
  run_spec (gate overwrite_flag remote export_id) Φ (λ _, True).
Proof.
  unfold gate. destruct overwrite_flag.
  - apply (run_bind _ _ _ (λ _, True)); [|intros _ _; by apply run_ret].
    destruct (tasks remote !! export_id) as [task_id|] eqn:Ht; [|by apply run_ret].
    apply run_emit; [|done]. split; [done|]. by exists export_id.
  - case_bool_decide; [by apply run_ret|].
    case_bool_decide; by apply run_ret.
Qed.

Lemma start_calls (state kind : string) (year : Z) (imgs : list Image) (src : string) :
  state ∈ states → year ∈ years → export_kind states state kind year →
  run_spec (start (lower (state +:+ kind +:+ pretty year)) imgs src) Φ (λ _, True).
Proof.
  intros Hs Hy Hk. apply run_emit; [|done]. simpl.
  split; [done|]. split; [apply lower_idemp|]. by exists state, kind, year.
Qed.

Lemma cdl_pair_calls (state : string) (year : Z) :
  state ∈ states → state ≠ "CA" → year ∈ years →
  run_spec (cdl_pair (cdl_state_years states years) overwrite_flag remote state year)
    Φ (λ _, True).
Proof.
  intros Hs Hca Hyr. unfold cdl_pair.
  destruct (cdl_state_years states years !! state) as [l|] eqn:Hl; [|by apply run_ret].
  case_bool_decide as Hin; [by apply run_ret|].
  eapply run_bind; [apply gate_calls|]. intros [] _; [|by apply run_ret].
  destruct (select_cdl_covered states years l state year Hl Hin) as [src Hsrc].
  eapply run_bind; [by apply (run_lift _ _ (λ _, True) src)|].
  intros src' _. apply start_calls; [done|done|]. left.
  split; [done|]. split; [done|].
  by apply (proj2 (cdl_state_years_spec states years state) l Hl year).
Qed.

Lemma landiq_year_calls (year : Z) :
  "CA" ∈ states → year ∈ years →
  run_spec (landiq_year overwrite_flag remote year) Φ (λ _, True).
Proof.
  intros Hs Hyr. unfold landiq_year.
  destruct (Z.ltb_spec year 2009); [by apply run_ret|].
  eapply run_bind; [apply gate_calls|]. intros [] _; [|by apply run_ret].
  destruct (select_ca_total year) as [sel Hsel].
  eapply run_bind; [by apply (run_lift _ _ (λ _, True) sel)|].
  intros [src|] _; [|by apply run_ret].
  apply start_calls; [done|done|]. right. left. by repeat split.
Qed.

Lemma composite_year_calls (year : Z) :
  "CA" ∈ states → year ∈ years →
  run_spec (ExportScript.composite_year overwrite_flag remote year) Φ (λ _, True).
Proof.
  intros Hs Hyr. unfold ExportScript.composite_year.
  destruct (Z.ltb_spec year cdl_year_min); [by apply run_ret|].
  eapply run_bind; [apply gate_calls|]. intros [] _; [|by apply run_ret].
  destruct (select_ca_composite_total year) as [ca_img ->].
  destruct (year <? 2009); (apply start_calls; [done|done|]); right; right; by repeat split.
Qed.
End calls.

Lemma main_calls (states : list string) (years : list (list Z))
    (overwrite_flag : bool) (remote : Remote) :
  run_spec (main states years overwrite_flag remote)
    (expected_call (enumerate_states states) (enumerate_years years) overwrite_flag remote)
    (λ _, True).
Proof.
  unfold main. cbv zeta.
  apply (run_bind _ _ _ (λ _, True)).
  { apply run_for_each. intros state Hs. unfold cdl_state.
    case_bool_decide as Hca; [by apply run_ret|].
    apply run_for_each. intros year Hy. by apply cdl_pair_calls. }
  intros _ _. apply (run_bind _ _ _ (λ _, True)).
  { case_bool_decide; [|by apply run_ret].
    apply run_for_each. intros year Hy. by apply landiq_year_calls. }
  intros _ _. case_bool_decide; [|by apply run_ret].
  apply run_for_each. intros year Hy. by apply composite_year_calls.
Qed.

(** X13.  Every call of a run of the export script is one of these: a
    cancellation, made only with the overwrite flag on and only of a task
    of the snapshot; or the start of a job whose file name prefix is the
    bucket folder followed by its description, and whose description is the
    lower-case [<state>_cdl_<year>], [ca_landiq_<year>] or
    [ca_composite_<year>] of a selected state and a selected year: a CDL job
    only for a state other than California that the table covers in that
    year, a Crop Mapping job only from 2009, a composite job only from
    2008. *)
Theorem main_calls_expected (states : list string) (years : list (list Z))
    (overwrite_flag : bool) (remote : Remote) :
  Forall (expected_call (enumerate_states states) (enumerate_years years)
            overwrite_flag remote)
    (main states years overwrite_flag remote).1.
Proof. exact (proj1 (main_calls states years overwrite_flag remote)). Qed.

(** ** Cancel and resubmit *)

Lemma resubmitted_app (remote : Remote) (log log' : list Action) :
  resubmitted remote log → resubmitted remote log' → resubmitted remote (log ++ log').
Proof.
  intros H H'. induction H; simpl; [done|by constructor|by constructor].
Qed.

Section resubmit.
Context (overwrite_flag : bool) (remote : Remote).

(** A run whose log is [resubmitted] and that returns. *)
Local Abbreviation fine := (λ m : X unit, resubmitted remote m.1 ∧ m.2 = inr tt).

Lemma fine_bind (m : X unit) (k : unit → X unit) :
  fine m → fine (k tt) → fine (m ≫= k).
Proof.
  destruct m as [log r]. simpl. intros [Hlog ->] [Hlog' Hr].
  unfold mbind, X_bind. destruct (k tt) as [log' r']. simpl in *.
  split; [by apply resubmitted_app|done].
Qed.

Lemma fine_for_each {A} (xs : list A) (body : A → X unit) :
  (∀ x, fine (body x)) → fine (for_each xs body).
Proof.
  intros Hbody. induction xs as [|x rest IH]; simpl.
  - split; [constructor|done].
  - by apply fine_bind.
Qed.

(** The gate followed by a submission that goes through. *)
Lemma fine_gate_start (export_id : string) (k : X unit) (imgs : list Image) (src : string) :
  k = start export_id imgs src →
  fine (go ← gate overwrite_flag remote export_id; if go : bool then k else mret tt).
Proof.
  intros ->. unfold gate. destruct overwrite_flag.
  - destruct (tasks remote !! export_id) as [task_id|] eqn:Ht.
    + split; [|done]. simpl. apply resubmitted_cancel; [done|constructor].
    + split; [|done]. simpl. apply resubmitted_start. constructor.
  - case_bool_decide; [split; [constructor|done]|].
    case_bool_decide; [split; [constructor|done]|].
    split; [|done]. simpl. apply resubmitted_start. constructor.
Qed.

Lemma fine_nil : fine (mret tt).
Proof. split; [constructor|done]. Qed.

Lemma cdl_pair_fine (states : list string) (years : list Z) (state : string) (year : Z) :
  fine (cdl_pair (cdl_state_years states years) overwrite_flag remote state year).
Proof.
  unfold cdl_pair.
  destruct (cdl_state_years states years !! state) as [l|] eqn:Hl; [|apply fine_nil].
  case_bool_decide as Hin; [apply fine_nil|].
  destruct (select_cdl_covered states years l state year Hl Hin) as [src Hsrc].
  rewrite Hsrc.
  apply (fine_gate_start _ _ [image src] (crop_source src)). reflexivity.
Qed.

Lemma select_ca_None (year : Z) : select_ca year = inr None → year < 2009.
Proof.
  unfold select_ca.
  case_bool_decide as H1; [intros Hsel; discriminate Hsel|].
  destruct (Z.ltb_spec 2023 year) as [Hgt|Hle]; [intros Hsel; discriminate Hsel|].
  case_bool_decide as H2; [intros Hsel; discriminate Hsel|].
  destruct (Z.ltb_spec year 2009) as [Hlt|Hge]; [done|].
  case_bool_decide as H3; intros Hsel; discriminate Hsel.
Qed.

Lemma landiq_year_fine (year : Z) : fine (landiq_year overwrite_flag remote year).
Proof.
  unfold landiq_year. destruct (Z.ltb_spec year 2009); [apply fine_nil|].
  destruct (select_ca_total year) as [sel Hsel]. rewrite Hsel.
  destruct sel as [src|].
  - apply (fine_gate_start _ _ [image src] (crop_source src)). reflexivity.
  - apply select_ca_None in Hsel. lia.
Qed.

Lemma composite_year_fine (year : Z) :
  fine (ExportScript.composite_year overwrite_flag remote year).
Proof.
  unfold ExportScript.composite_year.
  destruct (Z.ltb_spec year cdl_year_min); [apply fine_nil|].
  destruct (select_ca_composite_total year) as [ca_img ->].
  destruct (year <? 2009); eapply fine_gate_start; reflexivity.
Qed.
End resubmit.

(** X14.  A run of the export script returns, and in its calls every
    cancellation is followed at once by the start of a job, the one under
    whose description the cancelled task was found in the snapshot: no
    task is cancelled without being resubmitted. *)
Theorem cancelled_task_resubmitted (states : list string) (years : list (list Z))
    (overwrite_flag : bool) (remote : Remote) :
  resubmitted remote (main states years overwrite_flag remote).1 ∧
  (main states years overwrite_flag remote).2 = inr tt ∧
  ∀ (i : nat) task_id,
    (main states years overwrite_flag remote).1 !! i = Some (CancelTask task_id) →
    ∃ job, (main states years overwrite_flag remote).1 !! S i = Some (StartTask job) ∧
           tasks remote !! description job = Some task_id.
Proof.
  assert (Hfine : resubmitted remote (main states years overwrite_flag remote).1 ∧
                  (main states years overwrite_flag remote).2 = inr tt).
  { unfold main. cbv zeta. apply fine_bind.
    { apply fine_for_each. intros state. unfold cdl_state.
      case_bool_decide; [apply fine_nil|].
      apply fine_for_each. intros year. apply cdl_pair_fine. }
    apply fine_bind.
    { case_bool_decide; [|apply fine_nil].
      apply fine_for_each. intros year. apply landiq_year_fine. }
    case_bool_decide; [|apply fine_nil].
    apply fine_for_each. intros year. apply composite_year_fine. }
  destruct Hfine as [Hlog Hr]. split; [done|]. split; [done|].
  induction Hlog as [|job log Hlog IH|t job log Ht Hlog IH]; intros i task_id Hi.
  - by rewrite lookup_nil in Hi.
  - destruct i as [|i]; [discriminate Hi|]. apply (IH i task_id Hi).
  - destruct i as [|[|i]].
    + injection Hi as <-. by exists job.
    + discriminate Hi.
    + apply (IH i task_id Hi).
Qed.

(** ** Source Selector (California) *)

Lemma not_direct_after_2023 (year : Z) : 2023 < year → year ∉ ca_direct_years.
Proof.
  intros Hy Hin. unfold ca_direct_years in Hin.
  repeat (apply elem_of_cons in Hin as [->|Hin]; [lia|]). by apply elem_of_nil in Hin.
Qed.

Lemma years_2009_2023 (year : Z) :
  2009 ≤ year ≤ 2023 →
  year ∈ [2009; 2010; 2011; 2012; 2013; 2014; 2015; 2016; 2017; 2018; 2019; 2020;
          2021; 2022; 2023].
Proof.
  intros Hy. change (year ∈ seqZ 2009 15). apply elem_of_seqZ. lia.
Qed.

(** X15.  From 2009 on the California selector always returns an image,
    the one of a year that has a Crop Mapping image: of the year itself,
    unremapped and with the image identifier as provenance, when the year
    has one; otherwise of 2014 for the years before it, of the year before
    for 2015 and 2017 and of 2023 for later years, through the annual crop
    remap and with "remapped annual crops" in the provenance.  Classes 82
    and 87 are masked exactly for the years before 2014.  The composite
    loop selects the same image. *)
Theorem select_ca_cases (year : Z) :
  2009 ≤ year →
  let ca_img_id := ca_coll_id +:+ "/" +:+ pretty (ca_image_year year) in
  let direct := bool_decide (year ∈ ca_direct_years) in
  let ca_img := mkImage ca_img_id (negb direct) (year <? 2014) in
  ca_image_year year ∈ ca_direct_years ∧
  select_ca year
  = inr (Some (mkSource ca_img
                 (if direct then ca_img_id
                  else ca_img_id +:+ " - remapped annual crops"))) ∧
  select_ca_composite year = Some ca_img.
Proof.
  intros Hy. cbv zeta.
  destruct (decide (2023 < year)) as [Hgt|Hle].
  - pose proof (not_direct_after_2023 year Hgt) as Hnd.
    unfold ca_image_year, select_ca, select_ca_composite.
    rewrite !bool_decide_eq_false_2 by done.
    destruct (Z.ltb_spec 2023 year) as [_|]; [|lia].
    destruct (Z.ltb_spec year 2014) as [|_]; [lia|].
    split; [|split; reflexivity].
    unfold ca_direct_years. do 7 right. left.
  - pose proof (years_2009_2023 year ltac:(lia)) as Hin.
    repeat (apply elem_of_cons in Hin as [->|Hin];
            [split; [vm_compute; set_solver|split; vm_compute; reflexivity]|]).
    by apply elem_of_nil in Hin.
Qed.

Lemma select_ca_cases_witness :
  let ca_img_id := ca_coll_id +:+ "/" +:+ pretty (ca_image_year 2015) in
  let direct := bool_decide (2015 ∈ ca_direct_years) in
  let ca_img := mkImage ca_img_id (negb direct) (2015 <? 2014) in
  ca_image_year 2015 ∈ ca_direct_years ∧
  select_ca 2015
  = inr (Some (mkSource ca_img
                 (if direct then ca_img_id
                  else ca_img_id +:+ " - remapped annual crops"))) ∧
  select_ca_composite 2015 = Some ca_img.
Proof. apply (select_ca_cases 2015). lia. Defined.

(** ** The composite job *)

Lemma years_2008_2024 (year : Z) :
  2008 ≤ year ≤ 2024 →
  year ∈ [2008; 2009; 2010; 2011; 2012; 2013; 2014; 2015; 2016; 2017; 2018; 2019;
          2020; 2021; 2022; 2023; 2024].
Proof.
  intros Hy. change (year ∈ seqZ 2008 17). apply elem_of_seqZ. lia.
Qed.

(** X16.  For a year from 2008 on that the gate lets through, the
    composite loop makes the calls of the gate and then starts one job.  The
    CDL image of the job is the one of the year, of 2024 for a later year,
    and always goes through the annual crop remap.  For 2008 it is the only
    image.  From 2009 on the California image comes first, so that its
    values win, and the provenance names the years of both images and ends
    with "composite - remapped annual crops", also when the California image
    is not remapped. *)
Theorem composite_job (overwrite_flag : bool) (remote : Remote) (year : Z) :
  let export_id := lower ("CA" +:+ "_composite_" +:+ pretty year) in
  let cdl_year := Z.min year cdl_year_max in
  let cdl_img_id := cdl_coll_id +:+ "/" +:+ pretty cdl_year in
  let cdl_img := mkImage cdl_img_id true false in
  cdl_year_min ≤ year →
  (gate overwrite_flag remote export_id).2 = inr true →
  ∃ imgs src,
    ExportScript.composite_year overwrite_flag remote year
    = (((gate overwrite_flag remote export_id).1
        ++ [StartTask (mkJob export_id (bucket_folder +:+ "/" +:+ export_id) imgs src)])%list,
       inr tt) ∧
    if year <? 2009 then
      imgs = [cdl_img] ∧ src = cdl_img_id +:+ " - remapped annual crops"
    else
      ∃ ca_img,
        select_ca_composite year = Some ca_img ∧
        imgs = [ca_img; cdl_img] ∧
        src = "CA" +:+ pretty (ca_image_year year) +:+ " CDL" +:+ pretty cdl_year +:+
              " composite - remapped annual crops".
Proof.
  cbv zeta. intros Hy Hgate. unfold ExportScript.composite_year.
  destruct (Z.ltb_spec year cdl_year_min) as [Hlt|_]; [lia|].
  destruct (gate overwrite_flag remote (lower ("CA" +:+ "_composite_" +:+ pretty year)))
    as [log r]. simpl in Hgate. subst r.
  unfold mbind, X_bind. cbv beta iota. unfold cdl_year_min in Hy.
  destruct (decide (2024 < year)) as [Hgt|Hle].
  - unfold select_ca_composite, ca_image_year.
    rewrite !bool_decide_eq_false_2 by (by apply not_direct_after_2023; lia).
    destruct (Z.ltb_spec 2023 year) as [_|]; [|lia].
    destruct (Z.ltb_spec year 2009) as [|_]; [lia|].
    replace (Z.min (Z.max year cdl_year_min) cdl_year_max) with 2024
      by (unfold cdl_year_min, cdl_year_max; lia).
    replace (Z.min year cdl_year_max) with 2024 by (unfold cdl_year_max; lia).
    unfold start, emit. eexists _, _. split; [reflexivity|].
    eexists. split; [reflexivity|]. split; reflexivity.
  - pose proof (years_2008_2024 year ltac:(lia)) as Hin.
    apply elem_of_cons in Hin as [->|Hin].
    { eexists _, _. split; [reflexivity|]. split; reflexivity. }
    repeat (apply elem_of_cons in Hin as [->|Hin];
            [eexists _, _; split; [reflexivity|];
             eexists; split; [reflexivity|]; split; reflexivity|]).
    by apply elem_of_nil in Hin.
Qed.

Lemma composite_job_witness :
  let overwrite_flag := true in
  let remote := mkRemote {[ "ca_composite_2015" := "TASK3" ]} [] in
  let year := 2015 in
  let export_id := lower ("CA" +:+ "_composite_" +:+ pretty year) in
  let cdl_year := Z.min year cdl_year_max in
  let cdl_img_id := cdl_coll_id +:+ "/" +:+ pretty cdl_year in
  let cdl_img := mkImage cdl_img_id true false in
  ∃ imgs src,
    ExportScript.composite_year overwrite_flag remote year
    = (((gate overwrite_flag remote export_id).1
        ++ [StartTask (mkJob export_id (bucket_folder +:+ "/" +:+ export_id) imgs src)])%list,
       inr tt) ∧
    if year <? 2009 then
      imgs = [cdl_img] ∧ src = cdl_img_id +:+ " - remapped annual crops"
    else
      ∃ ca_img,
        select_ca_composite year = Some ca_img ∧
        imgs = [ca_img; cdl_img] ∧
        src = "CA" +:+ pretty (ca_image_year year) +:+ " CDL" +:+ pretty cdl_year +:+
              " composite - remapped annual crops".
Proof.
  intros overwrite_flag remote year.
  apply (composite_job overwrite_flag remote year).
  - unfold cdl_year_min, year. lia.
  - reflexivity.
Defined.

(** ** Remap Table *)

Lemma authored_fold_keeps (rows : list (Z * Z)) (table : gmap Z Z) (code : Z) :
  code ∉ rows.*1 →
  foldl (λ table row, <[row.1 := row.2]> table) table rows !! code = table !! code.
Proof.
  revert table. induction rows as [|[i o] rows IH]; intros table Hnot; simpl; [done|].
  simpl in Hnot. apply not_elem_of_cons in Hnot as [Hne Hnot].
  rewrite IH by done. by rewrite lookup_insert_ne.
Qed.

Lemma authored_fold_Some (rows : list (Z * Z)) (table : gmap Z Z) (i o : Z) :
  NoDup rows.*1 → (i, o) ∈ rows →
  foldl (λ table row, <[row.1 := row.2]> table) table rows !! i = Some o.
Proof.
  revert table. induction rows as [|[i' o'] rows IH]; intros table Hnd Hin.
  - by apply elem_of_nil in Hin.
  - simpl in Hnd. apply NoDup_cons in Hnd as [Hnot Hnd]. simpl.
    apply elem_of_cons in Hin as [[= <- <-]|Hin].
    + rewrite authored_fold_keeps by done. by rewrite lookup_insert_eq.
    + by apply IH.
Qed.

Lemma cdl_annual_remap_lookup (remap_rows : list (Z * Z)) (code : Z) :
  cdl_annual_remap remap_rows !! code
  = match authored_remap remap_rows !! code with
    | Some out => Some out
    | None => if decide (1 ≤ code ≤ 255) then Some code else None
    end.
Proof.
  unfold cdl_annual_remap. cbv zeta. rewrite default_fold_lookup.
  destruct (authored_remap remap_rows !! code) as [out|] eqn:Ha.
  - rewrite decide_False; [done|].
    intros [Hnone _]%list_elem_of_filter. congruence.
  - destruct (decide (1 ≤ code ≤ 255)) as [Hc|Hc].
    + rewrite decide_True; [done|].
      apply list_elem_of_filter. split; [done|]. apply elem_of_seqZ. lia.
    + rewrite decide_False; [done|].
      intros [_ Hin]%list_elem_of_filter. apply elem_of_seqZ in Hin. lia.
Qed.

(** X17.  When no IN code is authored twice, every authored row is kept by
    the Remap Table as written.  A code that is neither authored nor from
    1 through 255 has no entry.  On every pixel value [remap] with the two
    lists handed to it gives what the table holds for the value, and
    masks the pixel when the table has no entry. *)
Theorem authored_rows_kept (remap_rows : list (Z * Z)) :
  NoDup remap_rows.*1 →
  (∀ i o, (i, o) ∈ remap_rows →
     authored_remap remap_rows !! i = Some o ∧
     cdl_annual_remap remap_rows !! i = Some o) ∧
  (∀ code, code ∉ remap_rows.*1 → ¬ (1 ≤ code ≤ 255) →
     cdl_annual_remap remap_rows !! code = None) ∧
  (∀ value, ee_remap (cdl_remap_in remap_rows) (cdl_remap_out remap_rows) value
            = cdl_annual_remap remap_rows !! value).
Proof.
  intros Hnd. split; [|split].
  - intros i o Hin.
    assert (Ha : authored_remap remap_rows !! i = Some o).
    { unfold authored_remap. apply authored_fold_Some.
      - by rewrite (merge_sort_Permutation by_IN remap_rows).
      - by rewrite (merge_sort_Permutation by_IN remap_rows). }
    split; [done|]. by rewrite cdl_annual_remap_lookup, Ha.
  - intros code Hnot Hc. rewrite cdl_annual_remap_lookup.
    apply authored_remap_None in Hnot. rewrite Hnot. by rewrite decide_False.
  - intros value. unfold cdl_remap_in, cdl_remap_out.
    by rewrite ee_remap_list_to_map, list_to_map_to_list.
Qed.

Lemma authored_rows_kept_witness :
  let remap_rows := [(36, 36); (5, 5); (176, 176); (61, 61); (24, 23)] in
  (∀ i o, (i, o) ∈ remap_rows →
     authored_remap remap_rows !! i = Some o ∧
     cdl_annual_remap remap_rows !! i = Some o) ∧
  (∀ code, code ∉ remap_rows.*1 → ¬ (1 ≤ code ≤ 255) →
     cdl_annual_remap remap_rows !! code = None) ∧
  (∀ value, ee_remap (cdl_remap_in remap_rows) (cdl_remap_out remap_rows) value
            = cdl_annual_remap remap_rows !! value).
Proof.
  intros remap_rows. apply (authored_rows_kept remap_rows).
  apply (bool_decide_unpack (NoDup remap_rows.*1)). vm_compute. exact I.
Defined.

Lemma string_app_assoc (a b c : string) : (a +:+ b) +:+ c = a +:+ (b +:+ c).
Proof.
  induction a as [|x a IH]; [done|].
  change (String x ((a +:+ b) +:+ c) = String x (a +:+ (b +:+ c))). by rewrite IH.
Qed.

(** X19.  The file a started job writes is named as the update script
    names the result file of the same state and year for the CDL and the
    composite exports, [<description>.csv]; a California Crop Mapping job
    writes [ca_landiq_<year>.csv], which is for no year the
    [ca_cadwr_<year>.csv] the Crop Mapping pass of the update script
    reads. *)
Theorem export_files_named (states : list string) (years : list (list Z))
    (overwrite_flag : bool) (remote : Remote) (job : Job) :
  StartTask job ∈ (main states years overwrite_flag remote).1 →
  ∃ (state kind : string) (year : Z),
    description job +:+ ".csv" = lower (state +:+ kind +:+ pretty year +:+ ".csv") ∧
    (kind = "_cdl_" ∨ kind = "_landiq_" ∧ state = "CA" ∨
     kind = "_composite_" ∧ state = "CA") ∧
    (kind = "_landiq_" →
     ∀ year' : Z, description job +:+ ".csv"
              ≠ lower ("CA" +:+ "_cadwr_" +:+ pretty year' +:+ ".csv")).
Proof.
  intros Hin.
  pose proof (proj1 (main_calls states years overwrite_flag remote)) as Hall.
  rewrite Forall_forall in Hall. apply Hall in Hin.
  destruct Hin as (_ & _ & state & kind & year & _ & _ & Hkind & Hd).
  exists state, kind, year.
  assert (Hname : description job +:+ ".csv"
                  = lower (state +:+ kind +:+ pretty year +:+ ".csv")).
  { rewrite Hd, !UpdateFacts.lower_app. by rewrite !string_app_assoc. }
  split; [done|]. split.
  - destruct Hkind as [(-> & _ & _)|[(-> & -> & _)|(-> & -> & _)]]; auto.
  - intros -> year' Heq. rewrite Hname in Heq.
    destruct Hkind as [(Hk & _ & _)|[(_ & -> & _)|(Hk & _ & _)]];
      [discriminate Hk| |discriminate Hk].
    rewrite !UpdateFacts.lower_app in Heq.
    change (lower "CA") with "ca" in Heq.
    change (lower "_landiq_") with "_landiq_" in Heq.
    change (lower "_cadwr_") with "_cadwr_" in Heq.
    discriminate Heq.
Qed.

Lemma export_files_named_witness :
  let job := mkJob "ca_landiq_2015" (bucket_folder +:+ "/" +:+ "ca_landiq_2015")
               [mkImage (ca_coll_id +:+ "/2014") true false]
               (ca_coll_id +:+ "/2014" +:+ " - remapped annual crops") in
  ∃ (state kind : string) (year : Z),
    description job +:+ ".csv" = lower (state +:+ kind +:+ pretty year +:+ ".csv") ∧
    (kind = "_cdl_" ∨ kind = "_landiq_" ∧ state = "CA" ∨
     kind = "_composite_" ∧ state = "CA") ∧
    (kind = "_landiq_" →
     ∀ year' : Z, description job +:+ ".csv"
              ≠ lower ("CA" +:+ "_cadwr_" +:+ pretty year' +:+ ".csv")).
Proof.
  intros job.
  apply (export_files_named ["CA"] [[2015]] false (mkRemote ∅ []) job).
  vm_compute. left.
Defined.

End ExportMore.
